(** * CCOS disk utilities: the image walker, lister, extractor, locator and patcher

    A shallow embedding of [dumper.c].  The binary decoder of the image
    ([ccos_image.h]), the string helpers ([string_utils.h]) and the C library
    are not part of [dumper.c]; the decoder is a type class [Codec] whose
    methods carry the names of the C functions, the host file system is a
    small executable model ([world]).

    Conventions of the embedding:
    - a C function that returns [-1] on failure and fills out-parameters
      otherwise returns an [option] here ([None] is [-1]); a pointer that may
      be [NULL] is an [option];
    - [uint32_t] arithmetic is written with its reduction modulo [2^32];
      [int level] and the [size_t] byte counts stay far below their widths
      (block identifiers are 16-bit, buffers live in memory) and are plain
      [Z] and [nat];
    - the diagnostics on [stderr], the [verbose] flag that only switches them on,
      and [calloc] returning [NULL] are left out;
    - [traverse_ccos_image] recurses on the image, so it takes [fuel]; [None]
      means the fuel ran out, never a result of the C function;
    - the host is flat and its streams have no buffer: a path is a key, and
      a write is either taken or refused at once. What is proved about the
      host takes a successful [fopen] or [mkdir] as a hypothesis, or
      concludes from a host with room for the bytes written. *)

From Stdlib Require Import ZArith List String Ascii Lia.
From Stdlib.Strings Require Import Byte.
From stdpp Require Import base gmap strings list pretty.
Import ListNotations.

Open Scope Z_scope.

(** ** C strings and [printf] conversions *)

Definition newline : string := String "010"%char EmptyString.

Fixpoint spaces (n : nat) : string :=
  match n with
  | O => EmptyString
  | S n' => String " "%char (spaces n')
  end.

Fixpoint zeros (n : nat) : string :=
  match n with
  | O => EmptyString
  | S n' => String "0"%char (zeros n')
  end.

(** The first [n] characters of [s]. *)
Fixpoint str_take (n : nat) (s : string) {struct s} : string :=
  match s with
  | EmptyString => EmptyString
  | String c s' =>
      match n with
      | O => EmptyString
      | S n' => String c (str_take n' s')
      end
  end.

(** [snprintf(buf, size, ...)]: the formatted text [s] cut to [size - 1]
    characters. *)
Definition snprintf (size : nat) (s : string) : string :=
  str_take (size - 1)%nat s.

(** ["%*s"] with a non-negative width: right-justified. *)
Definition pad_left (width : Z) (s : string) : string :=
  spaces (Z.to_nat width - String.length s)%nat +:+ s.

(** ["%-*s"]: left-justified. *)
Definition pad_right (width : Z) (s : string) : string :=
  s +:+ spaces (Z.to_nat width - String.length s)%nat.

(** ["%u"] and ["%d"]. *)
Definition fmt_d (z : Z) : string := pretty z.

(** ["%0wd"]. *)
Definition fmt_0d (width : nat) (z : Z) : string :=
  if z <? 0
  then "-" +:+ zeros (width - 1 - String.length (pretty (- z)))%nat +:+ pretty (- z)
  else zeros (width - String.length (pretty z))%nat +:+ pretty z.

(** [strrchr(s, c)]: the suffix of [s] that starts at the last [c]. *)
Fixpoint strrchr (s : string) (c : ascii) : option string :=
  match s with
  | EmptyString => None
  | String a s' =>
      match strrchr s' c with
      | Some r => Some r
      | None => if Ascii.eqb a c then Some s else None
      end
  end.

(** [p + 1] on a pointer into a string. *)
Definition str_next (s : string) : string :=
  match s with
  | EmptyString => EmptyString
  | String _ s' => s'
  end.

Fixpoint str_In (c : ascii) (s : string) : Prop :=
  match s with
  | EmptyString => False
  | String a s' => a = c \/ str_In c s'
  end.

(** Modelled from the spec: [replace_char_in_place] of [string_utils.h],
    which is not in src/; it "substitutes any path-separator character
    appearing in a decoded name with a placeholder character". *)
Fixpoint replace_char_in_place (s : string) (from to : ascii) : string :=
  match s with
  | EmptyString => EmptyString
  | String a s' =>
      String (if Ascii.eqb a from then to else a) (replace_char_in_place s' from to)
  end.

(** ** Integer types *)

Definition to_uint32 (z : Z) : Z := z mod 2 ^ 32.

(** An [unsigned] passed where [printf] reads an [int]. *)
Definition to_int32 (z : Z) : Z :=
  let u := to_uint32 z in if u <? 2 ^ 31 then u else u - 2 ^ 32.

(** [PATH_MAX] of [<limits.h>] on Linux. *)
Definition PATH_MAX : nat := 4096.

Definition VERSION_MAX_SIZE : nat := 12.

(** [typedef enum { RESULT_OK = 1, RESULT_ERROR, RESULT_BREAK }]. The
    visitors return the enumeration as the integer it is: the walker only
    compares it with [RESULT_OK] and [RESULT_ERROR]. *)
Definition RESULT_OK : Z := 1.
Definition RESULT_ERROR : Z := 2.
Definition RESULT_BREAK : Z := 3.

(** ** The image and its decoder *)

Definition image := list byte.

Record version_t := Version { major : Z; minor : Z; patch : Z }.
Record ccos_date_t := Date { year : Z; month : Z; day : Z }.

(** The functions of [ccos_image.h] that [dumper.c] calls. Block identifiers
    are [uint16_t]. [ccos_get_block_data] yields the bytes at [data_start],
    whose number is [data_size]. [ccos_replace_file] overwrites the buffer in
    place; its result is the buffer afterwards. *)
Class Codec := {
  short_string_t : Type;
  ccos_get_dir_contents : Z -> image -> option (list Z);
  ccos_is_dir : Z -> image -> bool;
  ccos_get_file_name : Z -> image -> short_string_t;
  ccos_parse_file_name : short_string_t -> option (string * string);
  ccos_short_string_to_string : short_string_t -> option string;
  ccos_get_file_size : Z -> image -> Z;
  ccos_get_file_version : Z -> image -> version_t;
  ccos_get_creation_date : Z -> image -> ccos_date_t;
  ccos_get_mod_date : Z -> image -> ccos_date_t;
  ccos_get_exp_date : Z -> image -> ccos_date_t;
  ccos_get_file_blocks : Z -> image -> option (list Z);
  ccos_get_block_data : Z -> image -> option (list byte);
  ccos_replace_file : Z -> list byte -> image -> option image;
  ccos_get_file_size_range :
    forall block data, 0 <= ccos_get_file_size block data < 2 ^ 32
}.

(** ** The host *)

(** [files] maps a path to the content of the regular file there, [dirs] are
    the directories, [space] is the number of bytes the host still accepts
    (a write beyond it is short), [stdout] the chunks printed so far.
    [block_reads] is a ghost field: the data blocks the extractor asked the
    decoder for, in order. *)
Record world := World {
  files : gmap string (list byte);
  dirs : gset string;
  space : nat;
  stdout : list string;
  block_reads : list Z
}.

Definition printf (s : string) (w : world) : world :=
  World (files w) (dirs w) (space w) (stdout w ++ [s]) (block_reads w).

(** [fopen(path, "wb")]: creates the file or cuts it to length zero; fails on
    a directory and on the empty path. The host is flat: a path is a key, the
    directory it lies in is not looked at and [..] is not resolved, so an
    open may succeed here that a file system refuses. The properties take
    the successful open as a hypothesis and use its effect on the file at
    [path]. *)
Definition fopen_wb (path : string) (w : world) : option world :=
  if bool_decide (path ∈ dirs w) || String.eqb path EmptyString then None
  else Some (World (<[path := []]> (files w)) (dirs w) (space w) (stdout w)
                   (block_reads w)).

(** [fopen(path, "rb")], [ftell] at the end and [fread] of the whole file. *)
Definition fopen_rb (path : string) (w : world) : option (list byte) :=
  files w !! path.

(** [fwrite(ptr, 1, n, f)] on the file opened at [path]: returns the number
    of bytes written. The stream has no buffer here: bytes the host has no
    room for are refused by [fwrite] itself, where a buffered stream may
    count them as written and lose them in [fclose], whose result lines 278
    and 473 do not look at. The properties conclude from a host with room
    for the bytes, or from the count [fwrite] returns as a hypothesis; none
    says when a count is short. *)
Definition fwrite (path : string) (bytes : list byte) (w : world) : nat * world :=
  let n := Nat.min (length bytes) (space w) in
  (n, World (<[path := default [] (files w !! path) ++ take n bytes]> (files w))
            (dirs w) (space w - n)%nat (stdout w) (block_reads w)).

Definition note_block_read (b : Z) (w : world) : world :=
  World (files w) (dirs w) (space w) (stdout w) (block_reads w ++ [b]).

(** ** The tree walker *)

Section Walker.
Context `{C : Codec}.
Context {St : Type}.

(** [on_file_t] and [on_dir_t]; [St] is what [arg] points to, together
    with whatever part of the host the visitor touches. *)
Definition visitor := Z -> image -> string -> Z -> St -> Z * St.

(** What one turn of the [for] loop does: go on to the next entry, or
    leave [traverse_ccos_image] with a return value. *)
Inductive flow := Next (arg : St) | Return (res : Z) (arg : St).

(** Lines 82-95 and 107-119: call the visitor if there is one. *)
Definition call_visitor (cb : option visitor) (block : Z) (data : image)
    (dirname : string) (level : Z) (arg : St) : flow :=
  match cb with
  | None => Next arg
  | Some f =>
      let (res, arg') := f block data dirname level arg in
      if res =? RESULT_OK then Next arg'
      else if res =? RESULT_ERROR then Return (-1) arg'
      else Return 0 arg'
  end.

(** The body of the loop, lines 60-120; [rec] is the recursive call. *)
Definition traverse_entry (rec : Z -> string -> Z -> St -> option (Z * St))
    (data : image) (dirname : string) (level : Z)
    (on_file on_dir : option visitor) (entry : Z) (arg : St) : option flow :=
  if ccos_is_dir entry data then
    match ccos_parse_file_name (ccos_get_file_name entry data) with
    | None => Some (Return (-1) arg)
    | Some (subdir_name, _) =>
        let subdir := snprintf PATH_MAX (dirname +:+ "/" +:+ subdir_name) in
        match call_visitor on_dir entry data dirname level arg with
        | Return res arg' => Some (Return res arg')
        | Next arg' =>
            match rec entry subdir (level + 1) arg' with
            | None => None
            | Some (res, arg'') =>
                if res =? -1 then Some (Return (-1) arg'') else Some (Next arg'')
            end
        end
    end
  else Some (call_visitor on_file entry data dirname level arg).

(** The loop, lines 59-125. *)
Fixpoint traverse_loop (rec : Z -> string -> Z -> St -> option (Z * St))
    (data : image) (dirname : string) (level : Z)
    (on_file on_dir : option visitor) (root_dir_files : list Z) (arg : St)
    : option (Z * St) :=
  match root_dir_files with
  | [] => Some (0, arg)
  | entry :: rest =>
      match traverse_entry rec data dirname level on_file on_dir entry arg with
      | None => None
      | Some (Return res arg') => Some (res, arg')
      | Some (Next arg') =>
          traverse_loop rec data dirname level on_file on_dir rest arg'
      end
  end.

(** [traverse_ccos_image], lines 48-126. *)
Fixpoint traverse_ccos_image (fuel : nat) (block : Z) (data : image)
    (dirname : string) (level : Z) (on_file on_dir : option visitor)
    (arg : St) : option (Z * St) :=
  match fuel with
  | O => None
  | S fuel' =>
      match ccos_get_dir_contents block data with
      | None => Some (-1, arg)
      | Some root_dir_files =>
          traverse_loop
            (fun b d l a => traverse_ccos_image fuel' b data d l on_file on_dir a)
            data dirname level on_file on_dir root_dir_files arg
      end
  end.

End Walker.

Arguments visitor St : clear implicits.
Arguments flow St : clear implicits.

(** ** The lister *)

Section Programs.
Context `{C : Codec}.

(** [format_version], lines 38-46. *)
Definition format_version (version : version_t) : string :=
  snprintf VERSION_MAX_SIZE
    (fmt_d (major version) +:+ "." +:+ fmt_d (minor version) +:+ "." +:+
     fmt_d (patch version)).

(** The ["%04d/%02d/%02d"] of lines 163, 167 and 171, in a buffer of 16. *)
Definition format_date (d : ccos_date_t) : string :=
  snprintf 16
    (fmt_0d 4 (year d) +:+ "/" +:+ fmt_0d 2 (month d) +:+ "/" +:+
     fmt_0d 2 (day d)).

(** The [printf] of lines 173 and 202. *)
Definition table_row (c1 c2 c3 c4 c5 c6 c7 : string) : string :=
  pad_right 32 c1 +:+ pad_right 24 c2 +:+ pad_right 16 c3 +:+
  pad_right 8 c4 +:+ pad_right 16 c5 +:+ pad_right 16 c6 +:+
  pad_right 16 c7 +:+ newline.

(** Lines 144-151. *)
Definition formatted_name (basename : string) (level : Z) : string :=
  let formatted_name_length := Z.of_nat (String.length basename) + 2 * level in
  snprintf (Z.to_nat (formatted_name_length + 1))
           (pad_left formatted_name_length basename).

(** [print_file_info], lines 128-177: the visitor of the listing, for files
    and directories alike. *)
Definition print_file_info (file_block : Z) (data : image) (dirname : string)
    (level : Z) (w : world) : Z * world :=
  let name := ccos_get_file_name file_block data in
  let file_size := ccos_get_file_size file_block data in
  match ccos_parse_file_name name with
  | None => (RESULT_ERROR, w)
  | Some (basename, type) =>
      let version_string := format_version (ccos_get_file_version file_block data) in
      let creation_date_string := format_date (ccos_get_creation_date file_block data) in
      let mod_date_string := format_date (ccos_get_mod_date file_block data) in
      let exp_date_string := format_date (ccos_get_exp_date file_block data) in
      (RESULT_OK,
       printf (table_row (formatted_name basename level) type
                         (fmt_d (to_int32 file_size)) version_string
                         creation_date_string mod_date_string exp_date_string) w)
  end.

(** [strrchr(path, '/')] and the step past the separator, lines 183-188,
    321-326 and 409-414. *)
Definition path_basename (path : string) : string :=
  match strrchr path "/" with
  | None => path
  | Some basename => str_next basename
  end.

Section Banner.
(** [trim_string] and [print_frame] of [string_utils.h] are not in src/:
    they are parameters here. [trim_string] receives a pointer that is
    [NULL] when the name cannot be converted. *)
Variable trim_string : option string -> ascii -> string.
Variable print_frame : nat -> string.

(** Lines 180-200. *)
Definition print_image_banner (path : string) (superblock : Z) (data : image)
    (w : world) : world :=
  let floppy_name := ccos_short_string_to_string (ccos_get_file_name superblock data) in
  let name_trimmed := trim_string floppy_name " " in
  let basename := path_basename path in
  let w := printf (print_frame (String.length basename + 2)) w in
  let w := printf ("|" +:+ basename +:+ "| - ") w in
  let w :=
    if (String.length name_trimmed =? 0)%nat
    then printf ("No description" +:+ newline) w
    else printf (default "(null)" floppy_name +:+ newline) w in
  let w := printf (print_frame (String.length basename + 2)) w in
  printf newline w.

(** [print_image_info], lines 179-206. *)
Definition print_image_info (fuel : nat) (path : string) (superblock : Z)
    (data : image) (w : world) : option (Z * world) :=
  let w := print_image_banner path superblock data w in
  let w :=
    printf (table_row "File name" "File type" "File size" "Version"
                      "Creation date" "Mod. date" "Exp. date") w in
  let w := printf (print_frame 128) w in
  traverse_ccos_image fuel superblock data "" 0
    (Some print_file_info) (Some print_file_info) w.
End Banner.

(** ** The extractor *)

(** The loop of lines 250-276. [current_size] and [file_size] are
    [uint32_t]; [MIN(A, B)] expands to [A < B ? A : B]. *)
Fixpoint dump_blocks (data : image) (abspath : string) (file_size : Z)
    (blocks : list Z) (current_size : Z) (w : world) : Z * world :=
  match blocks with
  | [] => (RESULT_OK, w)
  | b :: rest =>
      let w := note_block_read b w in
      match ccos_get_block_data b data with
      | None => (RESULT_ERROR, w)
      | Some data_start =>
          let data_size := length data_start in
          let write_size :=
            if to_uint32 (file_size - current_size) <? Z.of_nat data_size
            then Z.to_nat (to_uint32 (file_size - current_size))
            else data_size in
          let (written, w) := fwrite abspath (take write_size data_start) w in
          if (written <? write_size)%nat then (RESULT_ERROR, w)
          else dump_blocks data abspath file_size rest
                           (to_uint32 (current_size + Z.of_nat write_size)) w
      end
  end.

(** Line 225: where the file goes on the host. *)
Definition dump_path (block : Z) (data : image) (dirname : string) : option string :=
  match ccos_short_string_to_string (ccos_get_file_name block data) with
  | None => None
  | Some file_name =>
      Some (snprintf PATH_MAX
              (dirname +:+ "/" +:+ replace_char_in_place file_name "/" "_"))
  end.

(** [dump_dir_tree_on_file], lines 208-285. *)
Definition dump_dir_tree_on_file (block : Z) (data : image) (dirname : string)
    (level : Z) (w : world) : Z * world :=
  match dump_path block data dirname with
  | None => (RESULT_ERROR, w)
  | Some abspath =>
      match ccos_get_file_blocks block data with
      | None => (RESULT_ERROR, w)
      | Some blocks =>
          match fopen_wb abspath w with
          | None => (RESULT_ERROR, w)
          | Some w =>
              let file_size := ccos_get_file_size block data in
              dump_blocks data abspath file_size blocks 0 w
          end
      end
  end.

(** ** The locator *)

Record find_file_data_t := FindFileData {
  target_name : string;
  target_inode : Z
}.

(** [find_file_on_file], lines 364-382. *)
Definition find_file_on_file (block : Z) (data : image) (dirname : string)
    (level : Z) (arg : find_file_data_t) : Z * find_file_data_t :=
  match ccos_short_string_to_string (ccos_get_file_name block data) with
  | None => (RESULT_ERROR, arg)
  | Some file_name =>
      let file_name := replace_char_in_place file_name "/" "_" in
      if String.eqb (target_name arg) file_name
      then (RESULT_BREAK, FindFileData (target_name arg) block)
      else (RESULT_OK, arg)
  end.

(** [find_filename], lines 384-399: the return value and [*inode]. *)
Definition find_filename (fuel : nat) (superblock : Z) (data : image)
    (filename : string) (inode : Z) : option (Z * Z) :=
  let find_file_data := FindFileData filename 0 in
  match traverse_ccos_image fuel superblock data "" 0
          (Some find_file_on_file) None find_file_data with
  | None => None
  | Some (res, find_file_data) =>
      if res =? -1 then Some (-1, inode)
      else if target_inode find_file_data =? 0 then Some (-1, inode)
      else Some (0, target_inode find_file_data)
  end.

(** ** The patcher *)

(** Lines 404-415: the name looked for in the image. *)
Definition replace_file_basename (filename : string) (target_name : option string)
    : string :=
  match target_name with
  | Some name => name
  | None => path_basename filename
  end.

(** Lines 455-463: where the new image goes. *)
Definition replace_file_output (path : string) (in_place : Z) : string :=
  if in_place =? 0 then snprintf PATH_MAX (path +:+ ".new") else path.

(** [replace_file], lines 401-481. [data_size] is a [size_t]. *)
Definition replace_file (fuel : nat) (path filename : string)
    (target_name : option string) (superblock : Z) (data : image)
    (data_size : nat) (in_place : Z) (w : world) : option (Z * world) :=
  let basename := replace_file_basename filename target_name in
  match find_filename fuel superblock data basename 0 with
  | None => None
  | Some (found, inode) =>
      if negb (found =? 0) then Some (-1, w)
      else
        match fopen_rb filename w with
        | None => Some (-1, w)
        | Some file_contents =>
            match ccos_replace_file inode file_contents data with
            | None => Some (-1, w)
            | Some data =>
                match fopen_wb (replace_file_output path in_place) w with
                | None => Some (-1, w)
                | Some w =>
                    let (res, w) :=
                      fwrite (replace_file_output path in_place)
                             (take data_size data) w in
                    if negb (res =? data_size)%nat then Some (-1, w)
                    else Some (0, w)
                end
            end
        end
  end.

End Programs.

(** ** Images that are trees *)

(** The finite unfolding of a directory block: a file, or a directory with
    its entries in the order of the image. *)
#[warnings="-register-all"]
Inductive tree :=
| File (block : Z)
| Dir (block : Z) (children : list tree).

Definition root (t : tree) : Z :=
  match t with
  | File b => b
  | Dir b _ => b
  end.

Fixpoint depth (t : tree) : nat :=
  match t with
  | File _ => O
  | Dir _ cs => S (foldr Nat.max O (map depth cs))
  end.

Definition forest_depth (cs : list tree) : nat := foldr Nat.max O (map depth cs).

(** Every entry below, in pre-order. *)
Fixpoint blocks (t : tree) : list Z :=
  match t with
  | File b => [b]
  | Dir b cs => b :: flat_map blocks cs
  end.

Fixpoint file_blocks (t : tree) : list Z :=
  match t with
  | File b => [b]
  | Dir _ cs => flat_map file_blocks cs
  end.

(** One call of a visitor. *)
Record event := Event {
  ev_is_dir : bool;
  ev_block : Z;
  ev_dirname : string;
  ev_level : Z
}.

Section Trees.
Context `{C : Codec}.
Variable data : image.

Definition decodes_to (block : Z) (entries : list Z) : bool :=
  bool_decide (ccos_get_dir_contents block data = Some entries).

(** The decoder sees [t] at [root t]: the classification agrees, a
    directory has a name that parses and decodes to the roots of its
    children. *)
Fixpoint shaped (t : tree) : bool :=
  match t with
  | File b => negb (ccos_is_dir b data)
  | Dir b cs =>
      ccos_is_dir b data
      && bool_decide (is_Some (ccos_parse_file_name (ccos_get_file_name b data)))
      && decodes_to b (map root cs)
      && forallb shaped cs
  end.

(** The image below [block] is the forest [cs]. *)
Definition image_tree (block : Z) (cs : list tree) : bool :=
  decodes_to block (map root cs) && forallb shaped cs.

(** [b] is an entry of the directory [a], or of a directory below it. *)
Inductive reachable : Z -> Z -> Prop :=
| reach_entry a entries b :
    ccos_get_dir_contents a data = Some entries -> In b entries ->
    reachable a b
| reach_below a entries d b :
    ccos_get_dir_contents a data = Some entries -> In d entries ->
    ccos_is_dir d data = true -> reachable d b ->
    reachable a b.

(** The path the walker builds for the directory [b] in [dirname],
    line 80. *)
Definition subdir_path (dirname : string) (b : Z) : string :=
  match ccos_parse_file_name (ccos_get_file_name b data) with
  | Some (subdir_name, _) => snprintf PATH_MAX (dirname +:+ "/" +:+ subdir_name)
  | None => dirname
  end.

(** The visitor calls of a walk in pre-order, with the arguments the
    visitors receive. *)
Fixpoint walk (dirname : string) (level : Z) (t : tree) : list event :=
  match t with
  | File b => [Event false b dirname level]
  | Dir b cs =>
      Event true b dirname level
      :: flat_map (walk (subdir_path dirname b) (level + 1)) cs
  end.

Definition walk_forest (dirname : string) (level : Z) (cs : list tree) : list event :=
  flat_map (walk dirname level) cs.

Section Visiting.
Context {St : Type}.
Variables on_file on_dir : option (visitor St).

Definition visit (e : event) (arg : St) : flow St :=
  call_visitor (if ev_is_dir e then on_dir else on_file)
               (ev_block e) data (ev_dirname e) (ev_level e) arg.

(** The state after the calls [evs], stopping at the first that does
    not say [RESULT_OK]. *)
Fixpoint run (evs : list event) (arg : St) : St :=
  match evs with
  | [] => arg
  | e :: rest =>
      match visit e arg with
      | Next arg' => run rest arg'
      | Return _ arg' => arg'
      end
  end.

(** No call of [evs] returns an abort or stop-early verdict. *)
Fixpoint all_ok (evs : list event) (arg : St) : bool :=
  match evs with
  | [] => true
  | e :: rest =>
      match visit e arg with
      | Next arg' => all_ok rest arg'
      | Return _ _ => false
      end
  end.
End Visiting.

(** A visitor that also records its calls. *)
Definition logged {St : Type} (is_dir : bool) (cb : visitor St)
    : visitor (St * list event) :=
  fun block data dirname level arg =>
    let (res, arg') := cb block data dirname level (fst arg) in
    (res, (arg', snd arg ++ [Event is_dir block dirname level])).

End Trees.

(** ** Vocabulary of the properties *)

Section Vocabulary.
Context `{C : Codec}.
Variable data : image.

(** The name under which the extractor writes the file [b] and with which
    the locator compares its target: lines 216-224 and 366-373. *)
Definition decoded_name (b : Z) : option string :=
  match ccos_short_string_to_string (ccos_get_file_name b data) with
  | Some file_name => Some (replace_char_in_place file_name "/" "_")
  | None => None
  end.

Definition name_matches (target : string) (b : Z) : bool :=
  match decoded_name b with
  | Some name => String.eqb target name
  | None => false
  end.


(** The number of bytes the block chain of the file [block] holds. *)
Definition chain_capacity (block : Z) : nat :=
  match ccos_get_file_blocks block data with
  | Some chain =>
      sum_list (map (fun b => length (default [] (ccos_get_block_data b data))) chain)
  | None => O
  end.


(** The payloads of a chain, when all its blocks decode. *)
Definition chain_payloads (chain : list Z) (payloads : list (list byte)) : Prop :=
  Forall2 (fun b p => ccos_get_block_data b data = Some p) chain payloads.

(** What a walk with [find_file_on_file] over the files [l] does to the
    record: nothing when no name matches, else it leaves a matching file of
    [l] in [target_inode]. *)
Definition found_in (l : list Z) (fd fd' : find_file_data_t) : Prop :=
  target_name fd' = target_name fd
  /\ if existsb (name_matches (target_name fd)) l
     then In (target_inode fd') l
          /\ name_matches (target_name fd) (target_inode fd') = true
     else fd' = fd.

Section Descent.
Context {St : Type}.
Variables on_file on_dir : option (visitor St).

(** The loop over [entries] when no turn leaves the function: the state
    after the last of them. *)
Fixpoint traverse_prefix (rec : Z -> string -> Z -> St -> option (Z * St))
    (dirname : string) (level : Z) (entries : list Z) (arg : St) : option St :=
  match entries with
  | [] => Some arg
  | entry :: rest =>
      match traverse_entry rec data dirname level on_file on_dir entry arg with
      | Some (Next arg') => traverse_prefix rec dirname level rest arg'
      | _ => None
      end
  end.

(** [enters fuel block dirname level arg fuel' d dirname' level' arg']: the
    call of [traverse_ccos_image] on [block] is the call on [d] itself, or
    it reaches, through the recursive calls of line 97 on a chain of nested
    directories, the call on [d], with the arguments [dirname'], [level']
    and [arg'] and the fuel [fuel']. The entries before each directory of
    the chain have been walked, and the directory visitor has said
    [RESULT_OK] on it. *)
Inductive enters : nat -> Z -> string -> Z -> St ->
                   nat -> Z -> string -> Z -> St -> Prop :=
| enters_here fuel block dirname level arg :
    enters fuel block dirname level arg fuel block dirname level arg
| enters_below fuel block dirname level arg before sub after arg0 arg1
               subdir_name type fuel' d dirname' level' arg' :
    ccos_get_dir_contents block data = Some (before ++ sub :: after) ->
    traverse_prefix
      (fun b d l a => traverse_ccos_image fuel b data d l on_file on_dir a)
      dirname level before arg = Some arg0 ->
    ccos_is_dir sub data = true ->
    ccos_parse_file_name (ccos_get_file_name sub data) = Some (subdir_name, type) ->
    call_visitor on_dir sub data dirname level arg0 = Next arg1 ->
    enters fuel sub (snprintf PATH_MAX (dirname +:+ "/" +:+ subdir_name))
           (level + 1) arg1 fuel' d dirname' level' arg' ->
    enters (S fuel) block dirname level arg fuel' d dirname' level' arg'.

End Descent.
End Vocabulary.

(** Modelled from the spec: [ccos_replace_file] of the decoder is not in
    src/. The spec has it "enforce that new content fits within the file's
    existing block-chain capacity": content larger than the chain fails
    with [CapacityExceeded]. *)
Definition enforces_capacity `{C : Codec} : Prop :=
  forall inode bytes data,
    (chain_capacity data inode < length bytes)%nat ->
    ccos_replace_file inode bytes data = None.

(** ** A small decoder for the examples

    Directories and files are given by a table; the payload of data block
    [b] is the four bytes of the image at offset [4 * b]. *)
Module Toy.

Inductive node :=
| dir (name : option string) (entries : option (list Z))
| file (name : option string) (size : Z) (chain : option (list Z)).

Definition table := list (Z * node).

Fixpoint lookup (tbl : table) (b : Z) : option node :=
  match tbl with
  | [] => None
  | (k, n) :: rest => if k =? b then Some n else lookup rest b
  end.

Definition node_name (n : option node) : option string :=
  match n with
  | Some (dir name _) => name
  | Some (file name _ _) => name
  | None => None
  end.

(** ["Name~Type~"] splits into ["Name"] and ["Type"]. *)
Fixpoint until_tilde (s : string) : string * string :=
  match s with
  | EmptyString => (EmptyString, EmptyString)
  | String c s' =>
      if Ascii.eqb c "~" then (EmptyString, s')
      else let (a, b) := until_tilde s' in (String c a, b)
  end.

Definition parse (s : option string) : option (string * string) :=
  match s with
  | None => None
  | Some s =>
      let (basename, rest) := until_tilde s in
      Some (basename, fst (until_tilde rest))
  end.

Definition block_data (b : Z) (data : image) : option (list byte) :=
  if (4 * Z.to_nat b + 4 <=? length data)%nat
  then Some (take 4 (drop (4 * Z.to_nat b) data))
  else None.

Definition file_chain (tbl : table) (b : Z) : option (list Z) :=
  match lookup tbl b with
  | Some (file _ _ chain) => chain
  | _ => None
  end.

Fixpoint store (chain : list Z) (bytes : list byte) (data : image) : image :=
  match chain with
  | [] => data
  | b :: rest =>
      let here := take 4 bytes in
      store rest (drop 4 bytes)
        (take (4 * Z.to_nat b) data ++ here
         ++ drop (4 * Z.to_nat b + length here) data)
  end.

(** The bytes the chain holds in the image. *)
Definition capacity (chain : list Z) (data : image) : nat :=
  sum_list (map (fun b => length (default [] (block_data b data))) chain).

Definition replace (tbl : table) (b : Z) (bytes : list byte) (data : image)
    : option image :=
  match file_chain tbl b with
  | None => None
  | Some chain =>
      if (length bytes <=? capacity chain data)%nat
      then Some (store chain bytes data)
      else None
  end.

Definition file_size (tbl : table) (b : Z) : Z :=
  match lookup tbl b with
  | Some (file _ size _) => size mod 2 ^ 32
  | _ => 0
  end.

Definition file_size_range tbl b : 0 <= file_size tbl b < 2 ^ 32.
Proof.
  unfold file_size. destruct (lookup tbl b) as [[|]|]; try lia.
  apply Z.mod_pos_bound. lia.
Defined.

Definition codec (tbl : table) : Codec := {|
  short_string_t := option string;
  ccos_get_dir_contents b _ :=
    match lookup tbl b with
    | Some (dir _ entries) => entries
    | _ => None
    end;
  ccos_is_dir b _ :=
    match lookup tbl b with
    | Some (dir _ _) => true
    | _ => false
    end;
  ccos_get_file_name b _ := node_name (lookup tbl b);
  ccos_parse_file_name := parse;
  ccos_short_string_to_string s := s;
  ccos_get_file_size b _ := file_size tbl b;
  ccos_get_file_version _ _ := Version 1 2 3;
  ccos_get_creation_date _ _ := Date 1985 4 1;
  ccos_get_mod_date _ _ := Date 1986 12 24;
  ccos_get_exp_date _ _ := Date 0 0 0;
  ccos_get_file_blocks b _ := file_chain tbl b;
  ccos_get_block_data := block_data;
  ccos_replace_file := replace tbl;
  ccos_get_file_size_range _ _ := file_size_range tbl _
|}.

(** An empty host with room for [n] bytes. *)
Definition host (n : nat) : world := World ∅ ∅ n [] [].

(** [/] holds [a] and the directory [sub], which holds [b], and then [c]:
<<
    1 --+-- 2  "a~Text~"
        +-- 3  "sub" --- 4  "b~Text~"
        +-- 5  "c~Text~"
>>  *)
Definition disk : table :=
  [ (1, dir (Some "root") (Some [2; 3; 5]));
    (2, file (Some "a~Text~") 6 (Some [10; 11]));
    (3, dir (Some "sub") (Some [4]));
    (4, file (Some "b~Text~") 4 (Some [12; 13]));
    (5, file (Some "c~Text~") 3 (Some [14])) ].

Definition disk_tree : list tree := [File 2; Dir 3 [File 4]; File 5].

(** Sixty bytes: block [b] holds [4b, 4b+1, 4b+2, 4b+3]. *)
Definition disk_image : image :=
  map (fun n => default x00 (Byte.of_nat n)) (seq 0 60).

End Toy.

(** ** Visitors and images of the examples *)

(** A visitor that counts its calls. *)
Definition count_calls : visitor nat :=
  fun _ _ _ _ n => (RESULT_OK, S n).

(** A visitor that records its calls and says [RESULT_BREAK] on [stop]. *)
Definition break_at (stop : Z) : visitor (list Z) :=
  fun block _ _ _ seen =>
    (if block =? stop then RESULT_BREAK else RESULT_OK, seen ++ [block]).

(** The image of [Toy.disk] with a second file named like the one in the
    subdirectory. *)
Definition disk_two_matches : Toy.table :=
  [ (1, Toy.dir (Some "root") (Some [2; 3; 5]));
    (2, Toy.file (Some "a~Text~") 6 (Some [10; 11]));
    (3, Toy.dir (Some "sub") (Some [4]));
    (4, Toy.file (Some "b~Text~") 4 (Some [12; 13]));
    (5, Toy.file (Some "b~Text~") 3 (Some [14])) ].

(** [Toy.disk] with a directory [7] in [sub] whose entries cannot be
    decoded. *)
Definition disk_undecodable : Toy.table :=
  [ (1, Toy.dir (Some "root") (Some [2; 3; 5]));
    (2, Toy.file (Some "a~Text~") 6 (Some [10; 11]));
    (3, Toy.dir (Some "sub") (Some [4; 7; 8]));
    (4, Toy.file (Some "b~Text~") 4 (Some [12; 13]));
    (5, Toy.file (Some "c~Text~") 3 (Some [14]));
    (7, Toy.dir (Some "lost") None);
    (8, Toy.file (Some "d~Text~") 1 (Some [9])) ].

(** [Toy.disk] where the chain of the file [4] goes on, after the block
    that holds all its bytes, with a block beyond the image. *)
Definition disk_slack_undecodable : Toy.table :=
  [ (1, Toy.dir (Some "root") (Some [2; 3; 5]));
    (2, Toy.file (Some "a~Text~") 6 (Some [10; 11]));
    (3, Toy.dir (Some "sub") (Some [4]));
    (4, Toy.file (Some "b~Text~") 4 (Some [12; 20]));
    (5, Toy.file (Some "c~Text~") 3 (Some [14])) ].

(** A host with the image and two replacement files, of 5 bytes each. *)
Definition replacement_host : world :=
  World (<["in/a~Text~" := [x61; x62; x63; x64; x65]]>
           (<["in/c~Text~" := [x61; x62; x63; x64; x65]]>
              (<["disk.img" := Toy.disk_image]> ∅)))
        ∅ 100 [] [].

(** ** The directory visitor of the extractor and [dump_dir] *)

(** [mkdir(path, mode)]: fails when something is at [path] already, and on
    the empty path. The host is flat: the parent of [path] is not looked at,
    so a [mkdir] may succeed here that a file system refuses. The properties
    take a successful [mkdir] as a hypothesis, or conclude its failure from
    what is at [path] already. *)
Definition mkdir (path : string) (w : world) : option world :=
  if bool_decide (path ∈ dirs w) || bool_decide (is_Some (files w !! path))
     || String.eqb path EmptyString
  then None
  else Some (World (files w) ({[path]} ∪ dirs w) (space w) (stdout w)
                   (block_reads w)).

Section Extraction.
Context `{C : Codec}.

(** [dump_dir_tree_on_dir], lines 287-315. Line 292 returns [-1], which is
    none of the three verdicts. *)
Definition dump_dir_tree_on_dir (block : Z) (data : image) (dirname : string)
    (level : Z) (w : world) : Z * world :=
  match ccos_parse_file_name (ccos_get_file_name block data) with
  | None => (-1, w)
  | Some (subdir_name, _) =>
      let subdir_name := replace_char_in_place subdir_name "/" "_" in
      let subdir := snprintf PATH_MAX (dirname +:+ "/" +:+ subdir_name) in
      match mkdir subdir w with
      | None => (RESULT_ERROR, w)
      | Some w => (RESULT_OK, w)
      end
  end.

Section DumpDir.
(** [trim_string] and [rtrim_string] of [string_utils.h] are not in src/:
    they are parameters. [rtrim_string] returns a pointer into its argument,
    here the offset, or [NULL]. *)
Variable trim_string : option string -> ascii -> string.
Variable rtrim_string : string -> ascii -> option nat.

(** Lines 318-349: the name of the directory the image is extracted to. The
    buffer of [PATH_MAX] bytes is taken to be large enough for [strcpy] and
    [strncpy]. *)
Definition dump_dir_name (path : string) (dir_inode : Z) (data : image) : string :=
  let floppy_name := ccos_short_string_to_string (ccos_get_file_name dir_inode data) in
  let name_trimmed := trim_string floppy_name " " in
  let basename := path_basename path in
  let dirname :=
    if (String.length name_trimmed =? 0)%nat then basename
    else
      match rtrim_string name_trimmed " " with
      | None => name_trimmed
      | Some idx => str_take idx name_trimmed
      end in
  replace_char_in_place dirname "/" "_".

(** [dump_dir], lines 317-362. *)
Definition dump_dir (fuel : nat) (path : string) (dir_inode : Z) (data : image)
    (w : world) : option (Z * world) :=
  let dirname := dump_dir_name path dir_inode data in
  match mkdir dirname w with
  | None => Some (-1, w)
  | Some w =>
      traverse_ccos_image fuel dir_inode data dirname 0
        (Some dump_dir_tree_on_file) (Some dump_dir_tree_on_dir) w
  end.

End DumpDir.
End Extraction.

Section WalkVocabulary.
Context `{C : Codec}.
Variable data : image.

(** [a] is the start block or a directory below it. *)
Definition walked (start a : Z) : Prop :=
  a = start \/ (reachable data start a /\ ccos_is_dir a data = true).

(** The visitor the walker calls on [e], if any. *)
Definition visitor_of {St : Type} (on_file on_dir : option (visitor St)) (e : Z)
    : option (visitor St) :=
  if ccos_is_dir e data then on_dir else on_file.

End WalkVocabulary.

(** A visitor that records its calls and says [RESULT_ERROR] on [stop]. *)
Definition abort_at (stop : Z) : visitor (list Z) :=
  fun block _ _ _ seen =>
    (if block =? stop then RESULT_ERROR else RESULT_OK, seen ++ [block]).

(** [Toy.disk] with a directory [7] in [sub] whose name cannot be parsed. *)
Definition disk_unnamed_dir : Toy.table :=
  [ (1, Toy.dir (Some "root") (Some [2; 3; 5]));
    (2, Toy.file (Some "a~Text~") 6 (Some [10; 11]));
    (3, Toy.dir (Some "sub") (Some [4; 7; 8]));
    (4, Toy.file (Some "b~Text~") 4 (Some [12; 13]));
    (5, Toy.file (Some "c~Text~") 3 (Some [14]));
    (7, Toy.dir None (Some []));
    (8, Toy.file (Some "d~Text~") 1 (Some [9])) ].

(** [Toy.disk] where the file [2] claims 10 bytes and its chain holds 8. *)
Definition disk_short_chain : Toy.table :=
  [ (1, Toy.dir (Some "root") (Some [2]));
    (2, Toy.file (Some "a~Text~") 10 (Some [10; 11])) ].

(** [Toy.disk] where the file [5] has a ['/'] in its name. *)
Definition disk_slash_name : Toy.table :=
  [ (1, Toy.dir (Some "root") (Some [2; 3; 5]));
    (2, Toy.file (Some "a~Text~") 6 (Some [10; 11]));
    (3, Toy.dir (Some "sub") (Some [4]));
    (4, Toy.file (Some "b~Text~") 4 (Some [12; 13]));
    (5, Toy.file (Some "XON/XOFF~Printer~") 3 (Some [14])) ].

(** [Toy.disk] where the directory [3] has a ['/'] in its name. *)
Definition disk_slash_dir : Toy.table :=
  [ (1, Toy.dir (Some "root") (Some [2; 3; 5]));
    (2, Toy.file (Some "a~Text~") 6 (Some [10; 11]));
    (3, Toy.dir (Some "GRiD/OS") (Some [4]));
    (4, Toy.file (Some "b~Text~") 4 (Some [12; 13]));
    (5, Toy.file (Some "c~Text~") 3 (Some [14])) ].

(** [Toy.disk] where the name of the file [4] in [sub] cannot be parsed. *)
Definition disk_unnamed_file : Toy.table :=
  [ (1, Toy.dir (Some "root") (Some [2; 3; 5]));
    (2, Toy.file (Some "a~Text~") 6 (Some [10; 11]));
    (3, Toy.dir (Some "sub") (Some [4; 8]));
    (4, Toy.file None 4 (Some [12; 13]));
    (5, Toy.file (Some "c~Text~") 3 (Some [14]));
    (8, Toy.file (Some "d~Text~") 1 (Some [9])) ].

(** [replacement_host] with room for 10 bytes only. *)
Definition crowded_host : world :=
  World (files replacement_host) ∅ 10 [] [].



(** A host on which the directory [out] exists. *)
Definition out_host : world := World ∅ {["out"]} 0 [] [].

(** An image whose start directory has a blank name. *)
Definition disk_unnamed_root : Toy.table :=
  [ (1, Toy.dir (Some EmptyString) (Some [2]));
    (2, Toy.file (Some "a~Text~") 6 (Some [10; 11])) ].

(** * Properties *)

(** ** Facts about the walker *)

Lemma forest_depth_cons c cs :
  forest_depth (c :: cs) = Nat.max (depth c) (forest_depth cs).
Proof. reflexivity. Qed.

Lemma image_tree_of_shaped `{C : Codec} data b ds :
  shaped data (Dir b ds) = true ->
  ccos_is_dir b data = true
  /\ (exists name type,
        ccos_parse_file_name (ccos_get_file_name b data) = Some (name, type))
  /\ image_tree data b ds = true.
Proof.
  simpl. rewrite !andb_true_iff. intros [[[Hd Hn] Hc] Hs].
  apply bool_decide_eq_true in Hn. destruct Hn as [[name type] Hn].
  split; [done|]. split; [by exists name, type|].
  unfold image_tree. by rewrite Hc, Hs.
Qed.

Lemma image_tree_contents `{C : Codec} data block cs :
  image_tree data block cs = true ->
  ccos_get_dir_contents block data = Some (map root cs)
  /\ forallb (shaped data) cs = true.
Proof.
  unfold image_tree, decodes_to. rewrite andb_true_iff, bool_decide_eq_true. tauto.
Qed.

Section WalkerFacts.
Context `{C : Codec}.
Variable data : image.
Context {St : Type}.
Variables on_file on_dir : option (visitor St).

Lemma run_app evs1 evs2 (s : St) :
  all_ok data on_file on_dir evs1 s = true ->
  run data on_file on_dir (evs1 ++ evs2) s
  = run data on_file on_dir evs2 (run data on_file on_dir evs1 s).
Proof.
  revert s. induction evs1 as [|e evs1 IH]; intros s H; simpl in *; [done|].
  destruct (visit data on_file on_dir e s); [by apply IH | discriminate].
Qed.

Lemma all_ok_app evs1 evs2 (s : St) :
  all_ok data on_file on_dir (evs1 ++ evs2) s
  = all_ok data on_file on_dir evs1 s
    && all_ok data on_file on_dir evs2 (run data on_file on_dir evs1 s).
Proof.
  revert s. induction evs1 as [|e evs1 IH]; intros s; simpl; [done|].
  destruct (visit data on_file on_dir e s); [apply IH | done].
Qed.

(** More fuel does not change a result. *)
Lemma traverse_loop_mono (rec rec' : Z -> string -> Z -> St -> option (Z * St))
    dirname level entries s r :
  (forall b d l a r, rec b d l a = Some r -> rec' b d l a = Some r) ->
  traverse_loop rec data dirname level on_file on_dir entries s = Some r ->
  traverse_loop rec' data dirname level on_file on_dir entries s = Some r.
Proof.
  intros Hrec. revert s. induction entries as [|e entries IH]; intros s; simpl; [done|].
  unfold traverse_entry.
  destruct (ccos_is_dir e data).
  - destruct (ccos_parse_file_name _) as [[name type]|]; [|done].
    destruct (call_visitor on_dir e data dirname level s) as [s1|res s1]; [|done].
    destruct (rec e _ _ s1) as [[res s2]|] eqn:E; [|done].
    rewrite (Hrec _ _ _ _ _ E). destruct (res =? -1); [done | apply IH].
  - destruct (call_visitor on_file e data dirname level s); [apply IH | done].
Qed.

Lemma traverse_fuel_S fuel block dirname level (s : St) r :
  traverse_ccos_image fuel block data dirname level on_file on_dir s = Some r ->
  traverse_ccos_image (S fuel) block data dirname level on_file on_dir s = Some r.
Proof.
  revert block dirname level s r.
  induction fuel as [|fuel IH]; intros block dirname level s r; [done|].
  intros H. simpl in H |- *.
  destruct (ccos_get_dir_contents block data); [|done].
  eapply traverse_loop_mono; [|exact H].
  intros b d lv a r' Hr. by apply IH in Hr.
Qed.

Lemma traverse_fuel_le fuel fuel' block dirname level (s : St) r :
  (fuel <= fuel')%nat ->
  traverse_ccos_image fuel block data dirname level on_file on_dir s = Some r ->
  traverse_ccos_image fuel' block data dirname level on_file on_dir s = Some r.
Proof.
  induction 1 as [|fuel' _ IH]; [done|].
  intros H. by apply traverse_fuel_S, IH.
Qed.

(** While every visitor says [RESULT_OK], the walk of a tree-shaped image
    is the pre-order sequence of visitor calls. *)
Lemma traverse_loop_all_ok fuel dirname level cs (s : St) :
  (forall block cs dirname level s,
      image_tree data block cs = true ->
      (forest_depth cs < fuel)%nat ->
      all_ok data on_file on_dir (walk_forest data dirname level cs) s = true ->
      traverse_ccos_image fuel block data dirname level on_file on_dir s
      = Some (0, run data on_file on_dir (walk_forest data dirname level cs) s)) ->
  forallb (shaped data) cs = true ->
  (forest_depth cs <= fuel)%nat ->
  all_ok data on_file on_dir (walk_forest data dirname level cs) s = true ->
  traverse_loop
    (fun b d l a => traverse_ccos_image fuel b data d l on_file on_dir a)
    data dirname level on_file on_dir (map root cs) s
  = Some (0, run data on_file on_dir (walk_forest data dirname level cs) s).
Proof.
  intros IHfuel. revert s.
  induction cs as [|c cs IH]; intros s Hshape Hdepth Hok; [done|].
  rewrite forest_depth_cons in Hdepth.
  simpl in Hshape. apply andb_true_iff in Hshape as [Hc Hcs].
  unfold walk_forest in *. simpl flat_map in *.
  rewrite all_ok_app in Hok. apply andb_true_iff in Hok as [Hok1 Hok2].
  rewrite run_app by done.
  simpl map. simpl traverse_loop. unfold traverse_entry.
  destruct c as [b|b ds].
  - simpl in Hc. apply negb_true_iff in Hc. simpl root. rewrite Hc.
    simpl in Hok1, Hok2 |- *. unfold visit in *. simpl in *.
    destruct (call_visitor on_file b data dirname level s) as [s1|? ?]; [|done].
    apply IH; [done | lia | done].
  - apply image_tree_of_shaped in Hc as (Hd & (name & type & Hn) & Htree).
    simpl root. rewrite Hd, Hn.
    simpl in Hok1, Hok2 |- *. unfold visit in *. simpl in *.
    destruct (call_visitor on_dir b data dirname level s) as [s1|? ?]; [|done].
    unfold subdir_path in *. rewrite Hn in *.
    fold (forest_depth ds) in Hdepth.
    rewrite (IHfuel b ds _ _ s1 Htree) by (done || lia).
    simpl. apply IH; [done | lia | done].
Qed.

Lemma traverse_all_ok fuel block dirname level cs (s : St) :
  image_tree data block cs = true ->
  (forest_depth cs < fuel)%nat ->
  all_ok data on_file on_dir (walk_forest data dirname level cs) s = true ->
  traverse_ccos_image fuel block data dirname level on_file on_dir s
  = Some (0, run data on_file on_dir (walk_forest data dirname level cs) s).
Proof.
  revert block dirname level cs s.
  induction fuel as [|fuel IH]; intros block dirname level cs s Htree Hdepth Hok; [lia|].
  apply image_tree_contents in Htree as [Hc Hs].
  simpl. rewrite Hc.
  apply traverse_loop_all_ok; [|done | lia | done].
  intros b ds d l a Ht Hd Ha.
  destruct fuel as [|fuel]; [lia|]. by apply IH.
Qed.

End WalkerFacts.

(** ** Facts about tree-shaped images *)

Lemma tree_forall_ind (P : tree -> Prop) :
  (forall b, P (File b)) ->
  (forall b cs, Forall P cs -> P (Dir b cs)) ->
  forall t, P t.
Proof.
  intros Hfile Hdir. fix IH 1. intros [b|b cs]; [apply Hfile|].
  apply Hdir. induction cs as [|c cs IHcs]; constructor; [apply IH | exact IHcs].
Qed.

Lemma in_root_blocks t : In (root t) (blocks t).
Proof. destruct t; simpl; auto. Qed.

Section TreeFacts.
Context `{C : Codec}.
Variable data : image.

Lemma shaped_in cs c :
  forallb (shaped data) cs = true -> In c cs -> shaped data c = true.
Proof. rewrite forallb_forall. auto. Qed.

Lemma shaped_dir_root c :
  shaped data c = true -> ccos_is_dir (root c) data = true ->
  exists ds, c = Dir (root c) ds.
Proof.
  destruct c as [b|b ds]; simpl; [|by exists ds].
  intros H1 H2. rewrite H2 in H1. discriminate.
Qed.

Lemma walk_forest_blocks dirname level cs :
  map ev_block (walk_forest data dirname level cs) = flat_map blocks cs.
Proof.
  assert (Htree : forall t dirname level,
             map ev_block (walk data dirname level t) = blocks t).
  { induction t as [b|b ds IH] using tree_forall_ind; intros dn lv; [done|].
    simpl. f_equal.
    induction IH as [|d ds Hd _ IHds]; [done|].
    simpl. by rewrite map_app, Hd, IHds. }
  induction cs as [|c cs IH]; [done|].
  unfold walk_forest in *. simpl. by rewrite map_app, Htree, IH.
Qed.

(** The directory callback goes to directories, the file callback to
    files. *)
Lemma walk_forest_kind dirname level cs e :
  forallb (shaped data) cs = true ->
  In e (walk_forest data dirname level cs) ->
  ev_is_dir e = ccos_is_dir (ev_block e) data.
Proof.
  assert (Htree : forall t dirname level,
             shaped data t = true -> In e (walk data dirname level t) ->
             ev_is_dir e = ccos_is_dir (ev_block e) data).
  { induction t as [b|b ds IH] using tree_forall_ind; intros dn lv Hs He.
    - simpl in Hs, He. destruct He as [<-|[]]. simpl.
      by apply negb_true_iff in Hs.
    - apply image_tree_of_shaped in Hs as (Hd & _ & Ht).
      apply image_tree_contents in Ht as [_ Hds].
      simpl in He. destruct He as [<-|He]; [done|].
      apply in_flat_map in He as (d & Hin & He).
      rewrite Forall_forall in IH.
      eapply IH; [by apply list_elem_of_In | by eapply shaped_in | exact He]. }
  intros Hs He. apply in_flat_map in He as (c & Hin & He).
  eapply Htree; [by eapply shaped_in | exact He].
Qed.

(** Every entry of the tree is reachable through the decoder. *)
Lemma blocks_reachable a cs x :
  image_tree data a cs = true -> In x (flat_map blocks cs) -> reachable data a x.
Proof.
  assert (Htree : forall t, shaped data t = true -> forall x, In x (blocks t) ->
             x = root t
             \/ (ccos_is_dir (root t) data = true /\ reachable data (root t) x)).
  { induction t as [b|b ds IH] using tree_forall_ind; intros Hs y Hy.
    - simpl in Hy. destruct Hy as [<-|[]]. by left.
    - apply image_tree_of_shaped in Hs as (Hd & _ & Ht).
      apply image_tree_contents in Ht as [Hc Hds].
      simpl in Hy. destruct Hy as [<-|Hy]; [by left|]. right. split; [done|].
      apply in_flat_map in Hy as (d & Hin & Hy).
      rewrite Forall_forall in IH.
      destruct (IH d (proj2 (list_elem_of_In _ _) Hin) (shaped_in _ _ Hds Hin) y Hy)
        as [->|[Hdd Hr]].
      + eapply reach_entry; [exact Hc | by apply in_map].
      + eapply reach_below; [exact Hc | by apply in_map | exact Hdd | exact Hr]. }
  intros Ht Hx. apply image_tree_contents in Ht as [Hc Hs].
  apply in_flat_map in Hx as (c & Hin & Hx).
  destruct (Htree c (shaped_in _ _ Hs Hin) x Hx) as [->|[Hd Hr]].
  - eapply reach_entry; [exact Hc | by apply in_map].
  - eapply reach_below; [exact Hc | by apply in_map | exact Hd | exact Hr].
Qed.

(** And nothing else is. *)
Lemma reachable_blocks a cs x :
  image_tree data a cs = true -> reachable data a x -> In x (flat_map blocks cs).
Proof.
  intros Ht Hr. revert cs Ht.
  induction Hr as [a entries b Hc Hb | a entries d b Hc Hd Hdir _ IH];
    intros cs Ht; apply image_tree_contents in Ht as [Hc' Hs];
    rewrite Hc' in Hc; injection Hc as <-.
  - apply in_map_iff in Hb as (c & <- & Hin).
    apply in_flat_map. exists c. split; [done | apply in_root_blocks].
  - apply in_map_iff in Hd as (c & <- & Hin).
    destruct (shaped_dir_root c (shaped_in _ _ Hs Hin) Hdir) as [ds Hds].
    apply in_flat_map. exists c. split; [done|].
    rewrite Hds. simpl. right. apply IH.
    pose proof (shaped_in _ _ Hs Hin) as Hsc. rewrite Hds in Hsc.
    by apply image_tree_of_shaped in Hsc as (_ & _ & ?).
Qed.

(** A directory of the tree heads the calls on everything below it. *)
Lemma walk_forest_split dirname level cs d :
  forallb (shaped data) cs = true ->
  In d (flat_map blocks cs) -> ccos_is_dir d data = true ->
  exists ds dirname' level' before after,
    image_tree data d ds = true
    /\ walk_forest data dirname level cs
       = before ++ Event true d dirname' level'
                :: walk_forest data (subdir_path data dirname' d) (level' + 1) ds
                ++ after.
Proof.
  assert (Hforest : forall cs,
    Forall (fun t => forall dirname level, shaped data t = true ->
              In d (blocks t) ->
              exists ds dirname' level' before after,
                image_tree data d ds = true
                /\ walk data dirname level t
                   = before ++ Event true d dirname' level'
                       :: walk_forest data (subdir_path data dirname' d) (level' + 1) ds
                       ++ after) cs ->
    forall dirname level, forallb (shaped data) cs = true ->
    In d (flat_map blocks cs) ->
    exists ds dirname' level' before after,
      image_tree data d ds = true
      /\ walk_forest data dirname level cs
         = before ++ Event true d dirname' level'
             :: walk_forest data (subdir_path data dirname' d) (level' + 1) ds
             ++ after).
  { clear cs dirname level. intros cs IH dn lv Hs Hin.
    apply in_flat_map in Hin as (c & Hc & Hin).
    rewrite Forall_forall in IH.
    destruct (IH c (proj2 (list_elem_of_In _ _) Hc) dn lv (shaped_in _ _ Hs Hc) Hin)
      as (ds & dn' & lv' & l1 & l3 & Ht & Hw).
    apply in_split in Hc as (pre & post & ->).
    exists ds, dn', lv', (walk_forest data dn lv pre ++ l1),
           (l3 ++ walk_forest data dn lv post).
    split; [done|].
    unfold walk_forest at 1. rewrite flat_map_app. simpl. rewrite Hw.
    unfold walk_forest. rewrite <- !app_assoc. simpl.
    by rewrite <- !app_assoc. }
  intros Hs Hin Hdir. apply Hforest; [|done..].
  apply Forall_forall. intros t _. clear Hs Hin cs dirname level.
  induction t as [b|b ds IH] using tree_forall_ind; intros dn lv Hs Hin.
  - simpl in Hs, Hin. destruct Hin as [->|[]]. rewrite Hdir in Hs. discriminate.
  - simpl in Hin. destruct Hin as [->|Hin].
    + exists ds, dn, lv, [], []. split.
      * by apply image_tree_of_shaped in Hs as (_ & _ & ?).
      * simpl. by rewrite app_nil_r.
    + apply image_tree_of_shaped in Hs as (_ & _ & Ht).
      apply image_tree_contents in Ht as [_ Hds].
      destruct (Hforest ds IH (subdir_path data dn b) (lv + 1) Hds Hin)
        as (ds' & dn' & lv' & l1 & l3 & Ht' & Hw).
      exists ds', dn', lv', (Event true b dn lv :: l1), l3.
      split; [done|]. simpl. fold (walk_forest data (subdir_path data dn b) (lv + 1) ds).
      by rewrite Hw.
Qed.

(** Recording does not change what the visitors do. *)
Lemma run_logged {St : Type} (on_file on_dir : visitor St) evs (s : St) log :
  all_ok data (Some on_file) (Some on_dir) evs s = true ->
  all_ok data (Some (logged false on_file)) (Some (logged true on_dir)) evs (s, log)
  = true
  /\ run data (Some (logged false on_file)) (Some (logged true on_dir)) evs (s, log)
     = (run data (Some on_file) (Some on_dir) evs s, log ++ evs).
Proof.
  revert s log. induction evs as [|e evs IH]; intros s log Hok.
  - simpl. by rewrite app_nil_r.
  - simpl in *. unfold visit, call_visitor, logged in *.
    destruct e as [[] b dn lv]; simpl in *.
    + destruct (on_dir b data dn lv s) as [res s1].
      destruct (res =? RESULT_OK); [|destruct (res =? RESULT_ERROR); done].
      destruct (IH s1 (log ++ [Event true b dn lv]) Hok) as [-> ->].
      by rewrite <- app_assoc.
    + destruct (on_file b data dn lv s) as [res s1].
      destruct (res =? RESULT_OK); [|destruct (res =? RESULT_ERROR); done].
      destruct (IH s1 (log ++ [Event false b dn lv]) Hok) as [-> ->].
      by rewrite <- app_assoc.
Qed.

End TreeFacts.

(** ** The walk of a well-formed image *)

(** C2. On a well-formed image (the decoder unfolds [block] into the finite
    forest [cs], and no entry occurs twice in it), with enough fuel for the
    depth of the image and while no visitor call returns an abort or
    stop-early verdict, [traverse_ccos_image] returns 0 and the recorded
    visitor calls are the pre-order sequence [walk_forest]: every entry
    reachable from [block] is called on exactly once, only reachable
    entries are called on, the directory visitor is the one called on
    directories, and the call on a directory comes strictly before the call
    on anything below that directory. Recording does not change the walk. *)
Theorem traverse_visits_each_entry_once_in_preorder `{C : Codec} {St : Type}
    (data : image) (on_file on_dir : visitor St) (fuel : nat) (block : Z)
    (dirname : string) (level : Z) (cs : list tree) (s : St) :
  image_tree data block cs = true ->
  NoDup (flat_map blocks cs) ->
  (forest_depth cs < fuel)%nat ->
  all_ok data (Some on_file) (Some on_dir) (walk_forest data dirname level cs) s
  = true ->
  let log := walk_forest data dirname level cs in
  let s' := run data (Some on_file) (Some on_dir) log s in
  traverse_ccos_image fuel block data dirname level
    (Some (logged false on_file)) (Some (logged true on_dir)) (s, [])
  = Some (0, (s', log))
  /\ traverse_ccos_image fuel block data dirname level
       (Some on_file) (Some on_dir) s
     = Some (0, s')
  /\ (forall b, reachable data block b ->
        count_occ Z.eq_dec (map ev_block log) b = 1%nat)
  /\ (forall e, In e log ->
        reachable data block (ev_block e)
        /\ ev_is_dir e = ccos_is_dir (ev_block e) data)
  /\ (forall d b,
        reachable data block d -> ccos_is_dir d data = true ->
        reachable data d b ->
        exists before between after ed eb,
          log = before ++ ed :: between ++ eb :: after
          /\ ev_block ed = d /\ ev_is_dir ed = true /\ ev_block eb = b).
Proof.
  intros Htree Hnodup Hfuel Hok log s'.
  pose proof (image_tree_contents _ _ _ Htree) as [_ Hshape].
  destruct (run_logged data on_file on_dir _ s [] Hok) as [Hok' Hrun'].
  split; [|split; [|split; [|split]]].
  - rewrite (traverse_all_ok data _ _ fuel block dirname level cs (s, []))
      by done.
    by rewrite Hrun'.
  - by apply traverse_all_ok.
  - intros b Hb. subst log. rewrite walk_forest_blocks.
    apply NoDup_count_occ'; [by apply NoDup_ListNoDup|].
    by eapply reachable_blocks.
  - intros e He. split; [|by eapply walk_forest_kind].
    eapply blocks_reachable; [done|].
    rewrite <- (walk_forest_blocks data dirname level). by apply in_map.
  - intros d b Hd Hdir Hb.
    apply (reachable_blocks _ _ _ _ Htree) in Hd.
    destruct (walk_forest_split data dirname level cs d Hshape Hd Hdir)
      as (ds & dn' & lv' & before & after & Hds & Hsplit).
    apply (reachable_blocks _ _ _ _ Hds) in Hb.
    rewrite <- (walk_forest_blocks data (subdir_path data dn' d) (lv' + 1)) in Hb.
    apply in_map_iff in Hb as (eb & Heb & Hin).
    apply in_split in Hin as (m1 & m2 & Hm).
    exists before, m1, (m2 ++ after), (Event true d dn' lv'), eb.
    split; [|done]. subst log. rewrite Hsplit, Hm.
    by rewrite <- app_assoc.
Qed.

Lemma traverse_visits_each_entry_once_in_preorder_witness :
  @traverse_ccos_image (Toy.codec Toy.disk) _ 2 1 Toy.disk_image "" 0
    (Some (logged false count_calls)) (Some (logged true count_calls)) (O, [])
  = Some (0, (4%nat,
              [Event false 2 "" 0; Event true 3 "" 0; Event false 4 "/sub" 1;
               Event false 5 "" 0])).
Proof.
  apply (@traverse_visits_each_entry_once_in_preorder (Toy.codec Toy.disk) nat
           Toy.disk_image count_calls count_calls 2 1 "" 0 Toy.disk_tree O).
  - vm_compute. reflexivity.
  - apply (bool_decide_unpack _). vm_compute. exact I.
  - vm_compute. lia.
  - vm_compute. reflexivity.
Defined.

(** ** Stop-early below the start directory *)

(** C3, the code at the failing input. The file visitor returns
    [RESULT_BREAK] on block 4, one directory below the start block; the walk
    of that directory returns 0, which line 100 takes for a finished
    subdirectory, and the visitor is called on block 5, the next entry of the
    start directory. At the start directory itself the stop does end the
    walk (the call on 2 is the last). For the locator this means that a
    match in a subdirectory is overwritten by a later match: it reports
    block 5, not the first match 4. *)
Theorem traverse_break_below_start_goes_on :
  @traverse_ccos_image (Toy.codec Toy.disk) _ 3 1 Toy.disk_image "" 0
    (Some (break_at 4)) None []
  = Some (0, [2; 4; 5])
  /\ @traverse_ccos_image (Toy.codec Toy.disk) _ 3 1 Toy.disk_image "" 0
       (Some (break_at 2)) None []
     = Some (0, [2])
  /\ @find_filename (Toy.codec disk_two_matches) 3 1 Toy.disk_image "b~Text~" 0
     = Some (0, 5).
Proof. repeat split; vm_compute; reflexivity. Qed.

(** ** A directory that cannot be decoded *)

Section DescentFacts.
Context `{C : Codec}.
Variable data : image.
Context {St : Type}.
Variables on_file on_dir : option (visitor St).

Lemma traverse_loop_prefix rec dirname level before rest (s s0 : St) :
  traverse_prefix data on_file on_dir rec dirname level before s = Some s0 ->
  traverse_loop rec data dirname level on_file on_dir (before ++ rest) s
  = traverse_loop rec data dirname level on_file on_dir rest s0.
Proof.
  revert s. induction before as [|e before IH]; intros s H; simpl in *.
  - by injection H as ->.
  - destruct (traverse_entry rec data dirname level on_file on_dir e s)
      as [[s1|res s1]|]; [by apply IH | done | done].
Qed.

Lemma enters_propagates fuel block dirname level (s : St)
    fuel' d dirname' level' s' sf :
  enters data on_file on_dir fuel block dirname level s fuel' d dirname' level' s' ->
  traverse_ccos_image fuel' d data dirname' level' on_file on_dir s' = Some (-1, sf) ->
  traverse_ccos_image fuel block data dirname level on_file on_dir s = Some (-1, sf).
Proof.
  induction 1 as [|fuel block dirname level s before sub after s0 s1 name type
                   fuel' d dirname' level' s' Hc Hpre Hdir Hname Hcb _ IH];
    intros Hfail; [done|].
  simpl. rewrite Hc.
  rewrite (traverse_loop_prefix _ _ _ _ _ _ _ Hpre).
  simpl. unfold traverse_entry. rewrite Hdir, Hname, Hcb.
  by rewrite (IH Hfail).
Qed.

End DescentFacts.

(** C7. When the entries of a directory [d] cannot be decoded, the call of
    [traverse_ccos_image] on [d] returns -1 at once, and so does every
    enclosing call, up to the call on the start block: the walk returns -1
    in the state [s'] in which it came to [d], so no visitor is called after
    that, neither on the later entries of [d]'s parent nor on those of any
    directory further up. [d] may be the start block itself. *)
Theorem undecodable_directory_aborts_walk `{C : Codec} {St : Type}
    (data : image) (on_file on_dir : option (visitor St))
    (fuel : nat) (block : Z) (dirname : string) (level : Z) (s : St)
    (fuel' : nat) (d : Z) (dirname' : string) (level' : Z) (s' : St) :
  enters data on_file on_dir fuel block dirname level s
         (S fuel') d dirname' level' s' ->
  ccos_get_dir_contents d data = None ->
  traverse_ccos_image (S fuel') d data dirname' level' on_file on_dir s'
  = Some (-1, s')
  /\ traverse_ccos_image fuel block data dirname level on_file on_dir s
     = Some (-1, s').
Proof.
  intros Henters Hnone.
  assert (Hd : traverse_ccos_image (S fuel') d data dirname' level' on_file on_dir s'
               = Some (-1, s')) by (simpl; by rewrite Hnone).
  split; [done|]. by eapply enters_propagates.
Qed.

Lemma undecodable_directory_aborts_walk_witness :
  @traverse_ccos_image (Toy.codec disk_undecodable) _ 3 1 Toy.disk_image "" 0
    (Some (break_at 0)) (Some (break_at 0)) []
  = Some (-1, [2; 3; 4; 7]).
Proof.
  apply (@undecodable_directory_aborts_walk (Toy.codec disk_undecodable) _
           Toy.disk_image (Some (break_at 0)) (Some (break_at 0))
           3 1 "" 0 [] 0 7 "/sub/lost" 2 [2; 3; 4; 7]).
  - eapply enters_below with (before := [2]) (sub := 3) (after := [5]);
      try reflexivity.
    eapply enters_below with (before := [4]) (sub := 7) (after := [8]);
      try reflexivity.
    apply enters_here.
  - reflexivity.
Defined.

(** ** The locator *)

Section LocatorFacts.
Context `{C : Codec}.
Variable data : image.

Lemma found_in_app l1 l2 fd fd1 fd2 :
  found_in data l1 fd fd1 -> found_in data l2 fd1 fd2 -> found_in data (l1 ++ l2) fd fd2.
Proof.
  unfold found_in. intros [Hn1 H1] [Hn2 H2]. split; [congruence|].
  rewrite existsb_app. rewrite Hn1 in H2.
  destruct (existsb _ l2).
  - rewrite orb_true_r. destruct H2 as [Hin Hm]. split; [|done].
    apply in_or_app. by right.
  - rewrite orb_false_r. subst fd2.
    destruct (existsb _ l1); [|done].
    destruct H1 as [Hin Hm]. split; [|done]. apply in_or_app. by left.
Qed.

Lemma find_file_on_file_decoded b dirname level fd name :
  decoded_name data b = Some name ->
  find_file_on_file b data dirname level fd
  = if String.eqb (target_name fd) name
    then (RESULT_BREAK, FindFileData (target_name fd) b)
    else (RESULT_OK, fd).
Proof.
  unfold decoded_name, find_file_on_file.
  destruct (ccos_short_string_to_string _); [|done]. by intros [= <-].
Qed.

Lemma find_loop fuel dirname level cs fd :
  (forall block cs dirname level fd,
      image_tree data block cs = true ->
      (forest_depth cs < fuel)%nat ->
      Forall (fun b => is_Some (decoded_name data b)) (flat_map file_blocks cs) ->
      exists fd',
        traverse_ccos_image fuel block data dirname level
          (Some find_file_on_file) None fd = Some (0, fd')
        /\ found_in data (flat_map file_blocks cs) fd fd') ->
  forallb (shaped data) cs = true ->
  (forest_depth cs <= fuel)%nat ->
  Forall (fun b => is_Some (decoded_name data b)) (flat_map file_blocks cs) ->
  exists fd',
    traverse_loop
      (fun b d l a =>
         traverse_ccos_image fuel b data d l (Some find_file_on_file) None a)
      data dirname level (Some find_file_on_file) None (map root cs) fd
    = Some (0, fd')
    /\ found_in data (flat_map file_blocks cs) fd fd'.
Proof.
  intros IHfuel. revert fd.
  induction cs as [|c cs IH]; intros fd Hshape Hdepth Hnames.
  { exists fd. by split. }
  rewrite forest_depth_cons in Hdepth.
  simpl in Hshape. apply andb_true_iff in Hshape as [Hc Hcs].
  simpl in Hnames. apply Forall_app in Hnames as [Hnc Hncs].
  simpl map. simpl traverse_loop. unfold traverse_entry.
  destruct c as [b|b ds].
  - simpl in Hc. apply negb_true_iff in Hc. simpl root. rewrite Hc.
    simpl in Hnc. apply Forall_cons in Hnc as [[name Hname] _].
    unfold call_visitor. rewrite (find_file_on_file_decoded _ _ _ _ _ Hname).
    destruct (String.eqb (target_name fd) name) eqn:Heq.
    + simpl. exists (FindFileData (target_name fd) b). split; [done|].
      unfold found_in. simpl. unfold name_matches at 1. rewrite Hname, Heq. simpl.
      split; [done|]. split; [by left|].
      unfold name_matches. by rewrite Hname.
    + simpl. destruct (IH fd Hcs) as (fd' & Hrun & Hfound); [lia | done |].
      exists fd'. split; [done|].
      apply (found_in_app [b] _ fd fd fd'); [|done].
      unfold found_in. simpl. unfold name_matches. by rewrite Hname, Heq.
  - apply image_tree_of_shaped in Hc as (Hd & (name & type & Hn) & Htree).
    simpl root. rewrite Hd, Hn. simpl call_visitor.
    simpl in Hnc. simpl depth in Hdepth. fold (forest_depth ds) in Hdepth.
    destruct (IHfuel b ds (snprintf PATH_MAX (dirname +:+ "/" +:+ name))
                (level + 1) fd Htree) as (fd1 & Hrun1 & Hfound1); [lia | done |].
    rewrite Hrun1. simpl.
    destruct (IH fd1 Hcs) as (fd2 & Hrun2 & Hfound2); [lia | done |].
    exists fd2. split; [done|]. simpl. by eapply found_in_app.
Qed.

Lemma find_walk fuel block dirname level cs fd :
  image_tree data block cs = true ->
  (forest_depth cs < fuel)%nat ->
  Forall (fun b => is_Some (decoded_name data b)) (flat_map file_blocks cs) ->
  exists fd',
    traverse_ccos_image fuel block data dirname level
      (Some find_file_on_file) None fd = Some (0, fd')
    /\ found_in data (flat_map file_blocks cs) fd fd'.
Proof.
  revert block dirname level cs fd.
  induction fuel as [|fuel IH]; intros block dirname level cs fd Htree Hdepth Hn; [lia|].
  apply image_tree_contents in Htree as [Hc Hs].
  simpl. rewrite Hc. apply find_loop; [|done | lia | done].
  intros b ds dn lv a Ht Hd Ha.
  destruct fuel as [|fuel]; [lia|]. by apply IH.
Qed.

(** A success of [find_filename] never carries the identifier 0, on any
    image. *)
Lemma find_filename_never_zero fuel superblock filename inode found :
  find_filename fuel superblock data filename inode = Some (0, found) ->
  found <> 0.
Proof.
  unfold find_filename.
  destruct (traverse_ccos_image _ _ _ _ _ _ _ _) as [[res fd]|]; [|done].
  destruct (res =? -1); [intros [= ?]; lia|].
  destruct (target_inode fd =? 0) eqn:E; [intros [= ?]; lia|].
  intros [= <-]. by apply Z.eqb_neq.
Qed.

Lemma existsb_name_matches target l :
  existsb (name_matches data target) l = true
  <-> exists b, In b l /\ decoded_name data b = Some target.
Proof.
  rewrite existsb_exists. unfold name_matches. split; intros (b & Hin & H).
  - exists b. split; [done|]. destruct (decoded_name data b) as [name|]; [|done].
    apply String.eqb_eq in H. by subst.
  - exists b. split; [done|]. rewrite H. apply String.eqb_refl.
Qed.

End LocatorFacts.

(** C4. On a well-formed image (the decoder unfolds [superblock] into the
    finite forest [cs], every file name decodes, and 0 is the identifier of
    no file), with enough fuel for the depth of the image, [find_filename]
    returns: it succeeds (0) exactly when some file of the tree has the
    decoded, separator-substituted name [filename] (compared character by
    character); on success [*inode] is nonzero and is a file of the tree
    with that name; otherwise the result is -1 and [*inode] is untouched. A
    success never carries the identifier 0, whatever the image. *)
Theorem find_filename_finds_matching_file `{C : Codec} (data : image)
    (fuel : nat) (superblock : Z) (filename : string) (inode : Z)
    (cs : list tree) :
  image_tree data superblock cs = true ->
  (forest_depth cs < fuel)%nat ->
  Forall (fun b => is_Some (decoded_name data b)) (flat_map file_blocks cs) ->
  Forall (fun b => b <> 0) (flat_map file_blocks cs) ->
  exists res found,
    find_filename fuel superblock data filename inode = Some (res, found)
    /\ (res = 0 <->
        exists b, In b (flat_map file_blocks cs)
                  /\ decoded_name data b = Some filename)
    /\ (res = 0 ->
        found <> 0 /\ In found (flat_map file_blocks cs)
        /\ decoded_name data found = Some filename)
    /\ (res <> 0 -> res = -1 /\ found = inode)
    /\ (forall fuel' superblock' data' filename' inode' found',
          find_filename fuel' superblock' data' filename' inode' = Some (0, found') ->
          found' <> 0).
Proof.
  intros Htree Hfuel Hnames Hnonzero.
  destruct (find_walk data fuel superblock "" 0 cs (FindFileData filename 0)
              Htree Hfuel Hnames) as (fd' & Hrun & Hname & Hfound).
  simpl in Hfound.
  pose proof (existsb_name_matches data filename (flat_map file_blocks cs)) as Hex.
  unfold find_filename. rewrite Hrun. simpl.
  destruct (existsb _ _).
  - destruct Hfound as [Hin Hm].
    assert (Hnz : target_inode fd' <> 0).
    { rewrite Forall_forall in Hnonzero. apply Hnonzero. by apply list_elem_of_In. }
    apply Z.eqb_neq in Hnz. rewrite Hnz.
    exists 0, (target_inode fd').
    assert (Hdec : decoded_name data (target_inode fd') = Some filename).
    { unfold name_matches in Hm.
      destruct (decoded_name data (target_inode fd')) as [name|]; [|done].
      apply String.eqb_eq in Hm. by subst. }
    split; [done|]. split; [split; [intros _; by apply Hex | done]|].
    split; [intros _; split; [by apply Z.eqb_neq | done]|].
    split; [done|].
    intros ? ? ? ? ? ?. apply find_filename_never_zero.
  - subst fd'. simpl. exists (-1), inode.
    split; [done|]. split; [split; [done|]|].
    { intros H. apply Hex in H. discriminate. }
    split; [done|]. split; [done|].
    intros ? ? ? ? ? ?. apply find_filename_never_zero.
Qed.

Lemma find_filename_finds_matching_file_witness :
  exists res found,
    @find_filename (Toy.codec Toy.disk) 2 1 Toy.disk_image "b~Text~" 0
    = Some (res, found)
    /\ (res = 0 <->
        exists b, In b (flat_map file_blocks Toy.disk_tree)
                  /\ @decoded_name (Toy.codec Toy.disk) Toy.disk_image b
                     = Some "b~Text~")
    /\ (res = 0 ->
        found <> 0 /\ In found (flat_map file_blocks Toy.disk_tree)
        /\ @decoded_name (Toy.codec Toy.disk) Toy.disk_image found
           = Some "b~Text~")
    /\ (res <> 0 -> res = -1 /\ found = 0)
    /\ (forall fuel' superblock' data' filename' inode' found',
          @find_filename (Toy.codec Toy.disk) fuel' superblock' data' filename' inode'
          = Some (0, found') ->
          found' <> 0).
Proof.
  apply (@find_filename_finds_matching_file (Toy.codec Toy.disk) Toy.disk_image
           2 1 "b~Text~" 0 Toy.disk_tree).
  - vm_compute. reflexivity.
  - vm_compute. lia.
  - repeat constructor; eexists; reflexivity.
  - repeat constructor; discriminate.
Defined.

(** ** The extractor *)

Lemma to_uint32_small z : 0 <= z < 2 ^ 32 -> to_uint32 z = z.
Proof. intros H. unfold to_uint32. by apply Z.mod_small. Qed.

(** [MIN(file_size - current_size, data_size)] is the minimum as long as
    [current_size] has not passed [file_size]. *)
Lemma write_size_min file_size current_size data_size :
  0 <= current_size <= file_size -> file_size < 2 ^ 32 ->
  (if to_uint32 (file_size - current_size) <? Z.of_nat data_size
   then Z.to_nat (to_uint32 (file_size - current_size))
   else data_size)
  = Nat.min (Z.to_nat (file_size - current_size)) data_size.
Proof.
  intros H1 H2. rewrite to_uint32_small by lia.
  destruct (Z.ltb_spec (file_size - current_size) (Z.of_nat data_size)); lia.
Qed.

Lemma take_min_app {A : Type} (n : nat) (p q : list A) :
  take n (p ++ q) = take (Nat.min n (length p)) p ++ take (n - Nat.min n (length p)) q.
Proof.
  rewrite take_app. destruct (Nat.le_gt_cases n (length p)).
  - rewrite Nat.min_l by done. by replace (n - length p)%nat with (n - n)%nat by lia.
  - rewrite Nat.min_r by lia. f_equal. rewrite !take_ge; [done | lia | lia].
Qed.

Section ExtractorFacts.
Context `{C : Codec}.
Variable data : image.

(** With the file at [abspath] holding [c], [current_size] being its length,
    and room on the host for what is left of [file_size], the loop appends
    what is left, or the payloads if they are shorter, and asks for every
    block. *)
Lemma dump_blocks_ok abspath file_size chain payloads c w :
  0 <= file_size < 2 ^ 32 ->
  chain_payloads data chain payloads ->
  files w !! abspath = Some c ->
  (length c <= Z.to_nat file_size)%nat ->
  (Z.to_nat file_size - length c <= space w)%nat ->
  dump_blocks data abspath file_size chain (Z.of_nat (length c)) w
  = (RESULT_OK,
     World (<[abspath := c ++ take (Z.to_nat file_size - length c) (concat payloads)]>
              (files w))
           (dirs w)
           (space w
            - length (take (Z.to_nat file_size - length c) (concat payloads)))%nat
           (stdout w) (block_reads w ++ chain)).
Proof.
  intros Hsize Hchain. revert c w.
  induction Hchain as [|b p chain payloads Hb _ IH]; intros c w Hc Hlen Hspace.
  - simpl. rewrite take_nil, !app_nil_r. simpl. rewrite Nat.sub_0_r.
    rewrite insert_id by done. by destruct w.
  - simpl dump_blocks. rewrite Hb.
    rewrite write_size_min by lia.
    replace (Z.to_nat (file_size - Z.of_nat (length c)))
      with (Z.to_nat file_size - length c)%nat by lia.
    set (n := (Z.to_nat file_size - length c)%nat) in *.
    set (ws := Nat.min n (length p)).
    unfold fwrite, note_block_read. simpl.
    rewrite Hc. simpl.
    assert (Hws : length (take ws p) = ws) by (rewrite length_take; lia).
    rewrite Hws.
    replace (Nat.min ws (space w)) with ws by lia.
    rewrite Nat.ltb_irrefl.
    rewrite (take_ge (take ws p)) by lia.
    rewrite to_uint32_small by lia.
    replace (Z.of_nat (length c) + Z.of_nat ws)
      with (Z.of_nat (length (c ++ take ws p)))
      by (rewrite length_app, Hws; lia).
    rewrite IH; simpl.
    + rewrite insert_insert_eq. rewrite length_app, Hws.
      replace (Z.to_nat file_size - (length c + ws))%nat with (n - ws)%nat by lia.
      rewrite (take_min_app n p (concat payloads)). fold ws.
      rewrite <- !app_assoc. simpl.
      rewrite length_app, Hws.
      f_equal. f_equal. lia.
    + apply lookup_insert_eq.
    + rewrite length_app, Hws. lia.
    + rewrite length_app, Hws. lia.
Qed.

End ExtractorFacts.

Lemma fopen_wb_Some path w w1 :
  fopen_wb path w = Some w1 ->
  w1 = World (<[path := []]> (files w)) (dirs w) (space w) (stdout w) (block_reads w).
Proof.
  unfold fopen_wb. destruct (_ || _); [done|]. by intros [= <-].
Qed.

(** The extraction of a file whose blocks all decode, on a host that lets
    the file be opened and has room for it. *)
Lemma dump_dir_tree_on_file_ok `{C : Codec} data block dirname level w
    abspath chain payloads w1 :
  dump_path block data dirname = Some abspath ->
  ccos_get_file_blocks block data = Some chain ->
  chain_payloads data chain payloads ->
  fopen_wb abspath w = Some w1 ->
  (Z.to_nat (ccos_get_file_size block data) <= space w)%nat ->
  dump_dir_tree_on_file block data dirname level w
  = (RESULT_OK,
     World (<[abspath := take (Z.to_nat (ccos_get_file_size block data))
                              (concat payloads)]> (files w))
           (dirs w)
           (space w - length (take (Z.to_nat (ccos_get_file_size block data))
                                   (concat payloads)))%nat
           (stdout w) (block_reads w ++ chain)).
Proof.
  intros Hpath Hchain Hpay Hopen Hspace.
  unfold dump_dir_tree_on_file. rewrite Hpath, Hchain, Hopen.
  apply fopen_wb_Some in Hopen as ->.
  rewrite (dump_blocks_ok data abspath _ chain payloads [] _
             (ccos_get_file_size_range block data) Hpay);
    simpl; [|apply lookup_insert_eq | lia | lia].
  by rewrite insert_insert_eq, Nat.sub_0_r.
Qed.

(** C1. For a file of logical size S whose blocks all decode and hold at
    least S bytes together, on a host that lets the file be opened and has
    room for S bytes, [dump_dir_tree_on_file] returns [RESULT_OK] and the
    host file holds exactly the first S bytes of the concatenated payloads
    (no other file changes, S bytes of room are used). After any number [k]
    of turns of the loop the file holds at most S bytes, whatever the
    capacity of the blocks. *)
Theorem dump_dir_tree_on_file_writes_logical_size `{C : Codec} (data : image)
    (block : Z) (dirname : string) (level : Z) (w w1 : world)
    (abspath : string) (chain : list Z) (payloads : list (list byte)) :
  dump_path block data dirname = Some abspath ->
  ccos_get_file_blocks block data = Some chain ->
  chain_payloads data chain payloads ->
  fopen_wb abspath w = Some w1 ->
  (Z.to_nat (ccos_get_file_size block data) <= length (concat payloads))%nat ->
  (Z.to_nat (ccos_get_file_size block data) <= space w)%nat ->
  exists w',
    dump_dir_tree_on_file block data dirname level w = (RESULT_OK, w')
    /\ files w'
       = <[abspath := take (Z.to_nat (ccos_get_file_size block data))
                           (concat payloads)]> (files w)
    /\ files w' !! abspath
       = Some (take (Z.to_nat (ccos_get_file_size block data)) (concat payloads))
    /\ length (take (Z.to_nat (ccos_get_file_size block data)) (concat payloads))
       = Z.to_nat (ccos_get_file_size block data)
    /\ space w' = (space w - Z.to_nat (ccos_get_file_size block data))%nat
    /\ (forall k, exists wk written,
          dump_blocks data abspath (ccos_get_file_size block data)
                      (take k chain) 0 w1 = (RESULT_OK, wk)
          /\ files wk !! abspath = Some written
          /\ (length written <= Z.to_nat (ccos_get_file_size block data))%nat).
Proof.
  intros Hpath Hchain Hpay Hopen Hcap Hspace.
  eexists. split; [by eapply dump_dir_tree_on_file_ok|]. simpl.
  assert (Hlen : length (take (Z.to_nat (ccos_get_file_size block data))
                              (concat payloads))
                 = Z.to_nat (ccos_get_file_size block data))
    by (rewrite length_take; lia).
  split; [done|]. split; [apply lookup_insert_eq|]. split; [done|].
  split; [by rewrite Hlen|].
  intros k. apply fopen_wb_Some in Hopen as ->.
  do 2 eexists.
  rewrite (dump_blocks_ok data abspath _ (take k chain) (take k payloads) [] _
             (ccos_get_file_size_range block data));
    simpl; [| by apply Forall2_take | apply lookup_insert_eq | lia | lia].
  split; [done|]. split; [apply lookup_insert_eq|].
  rewrite length_take. lia.
Qed.

Lemma dump_dir_tree_on_file_writes_logical_size_witness :
  exists w',
    @dump_dir_tree_on_file (Toy.codec Toy.disk) 2 Toy.disk_image "out" 0
      (Toy.host 100) = (RESULT_OK, w')
    /\ files w' !! "out/a~Text~" = Some [x28; x29; x2a; x2b; x2c; x2d]
    /\ space w' = 94%nat.
Proof.
  destruct (@dump_dir_tree_on_file_writes_logical_size (Toy.codec Toy.disk)
              Toy.disk_image 2 "out" 0 (Toy.host 100)
              (World {["out/a~Text~" := []]} ∅ 100 [] [])
              "out/a~Text~" [10; 11]
              [[x28; x29; x2a; x2b]; [x2c; x2d; x2e; x2f]])
    as (w' & Hrun & _ & Hfile & _ & Hspace & _).
  - reflexivity.
  - reflexivity.
  - repeat constructor.
  - reflexivity.
  - vm_compute. lia.
  - vm_compute. lia.
  - exists w'. split; [exact Hrun|]. split; [exact Hfile | exact Hspace].
Defined.

(** C8 as stated fails: the file [4] of [Toy.disk] has logical size 4 and
    the chain [12; 13]; block 12 holds all four bytes, and the loop still
    asks the decoder for block 13. When that later block cannot be decoded
    (block 20 lies beyond the image), the extraction of the complete file
    fails. *)
Lemma dump_reads_blocks_past_logical_size :
  @ccos_get_file_size (Toy.codec Toy.disk) 4 Toy.disk_image = 4
  /\ @ccos_get_block_data (Toy.codec Toy.disk) 12 Toy.disk_image
     = Some [x30; x31; x32; x33]
  /\ block_reads
       (snd (@dump_dir_tree_on_file (Toy.codec Toy.disk) 4 Toy.disk_image
               "out" 0 (Toy.host 100)))
     = [12; 13]
  /\ fst (@dump_dir_tree_on_file (Toy.codec disk_slack_undecodable) 4
            Toy.disk_image "out" 0 (Toy.host 100))
     = RESULT_ERROR.
Proof. repeat split; vm_compute; reflexivity. Qed.

(** C8, amended. Once the bytes written reach the logical size (the blocks
    [before] hold at least that many), the loop still asks the decoder for
    every later block of the chain, in order, but writes nothing for them:
    the host is as after the blocks [before] alone, and the file holds the
    first S bytes of their payloads, without slack. *)
Theorem dump_reads_whole_chain_writes_no_slack `{C : Codec} (data : image)
    (block : Z) (dirname : string) (level : Z) (w w1 : world)
    (abspath : string) (before later : list Z)
    (payloads payloads' : list (list byte)) :
  dump_path block data dirname = Some abspath ->
  ccos_get_file_blocks block data = Some (before ++ later) ->
  chain_payloads data before payloads ->
  chain_payloads data later payloads' ->
  fopen_wb abspath w = Some w1 ->
  (Z.to_nat (ccos_get_file_size block data) <= length (concat payloads))%nat ->
  (Z.to_nat (ccos_get_file_size block data) <= space w)%nat ->
  exists w' wb,
    dump_dir_tree_on_file block data dirname level w = (RESULT_OK, w')
    /\ dump_blocks data abspath (ccos_get_file_size block data) before 0 w1
       = (RESULT_OK, wb)
    /\ block_reads wb = block_reads w ++ before
    /\ block_reads w' = block_reads w ++ before ++ later
    /\ files w' = files wb
    /\ space w' = space wb
    /\ files w' !! abspath
       = Some (take (Z.to_nat (ccos_get_file_size block data)) (concat payloads)).
Proof.
  intros Hpath Hchain Hpay Hpay' Hopen Hcap Hspace.
  do 2 eexists.
  split; [eapply dump_dir_tree_on_file_ok; try done; by apply Forall2_app|].
  pose proof (fopen_wb_Some _ _ _ Hopen) as ->.
  rewrite (dump_blocks_ok data abspath _ before payloads [] _
             (ccos_get_file_size_range block data));
    simpl; [| done | apply lookup_insert_eq | lia | lia].
  rewrite insert_insert_eq, Nat.sub_0_r, concat_app.
  rewrite take_app_le by done.
  split; [done|]. split; [done|]. split; [done|]. split; [done|].
  split; [done|]. apply lookup_insert_eq.
Qed.

Lemma dump_reads_whole_chain_writes_no_slack_witness :
  exists w' wb,
    @dump_dir_tree_on_file (Toy.codec Toy.disk) 4 Toy.disk_image "out" 0
      (Toy.host 100) = (RESULT_OK, w')
    /\ block_reads wb = [12]
    /\ block_reads w' = [12; 13]
    /\ files w' = files wb
    /\ files w' !! "out/b~Text~" = Some [x30; x31; x32; x33].
Proof.
  destruct (@dump_reads_whole_chain_writes_no_slack (Toy.codec Toy.disk)
              Toy.disk_image 4 "out" 0 (Toy.host 100)
              (World {["out/b~Text~" := []]} ∅ 100 [] [])
              "out/b~Text~" [12] [13]
              [[x30; x31; x32; x33]] [[x34; x35; x36; x37]])
    as (w' & wb & Hrun & _ & Hrb & Hr & Hf & _ & Hfile).
  - reflexivity.
  - reflexivity.
  - repeat constructor.
  - repeat constructor.
  - reflexivity.
  - vm_compute. lia.
  - vm_compute. lia.
  - exists w', wb. repeat split; assumption.
Defined.

(** ** The lister *)

Lemma str_app_cons a s t : String a s +:+ t = String a (s +:+ t).
Proof. reflexivity. Qed.

Lemma str_app_nil_l t : EmptyString +:+ t = t.
Proof. reflexivity. Qed.

Lemma str_length_app s t :
  String.length (s +:+ t) = (String.length s + String.length t)%nat.
Proof.
  induction s as [|a s IH]; [done|].
  rewrite str_app_cons. simpl. by rewrite IH.
Qed.



Lemma str_take_all n s : (String.length s <= n)%nat -> str_take n s = s.
Proof.
  revert n. induction s as [|a s IH]; intros n H; [done|].
  simpl in *. destruct n as [|n]; [lia|]. rewrite IH; [done | lia].
Qed.


Section ListerFacts.
Context `{C : Codec}.
Variable data : image.





End ListerFacts.

(** Printing the banner leaves the files of the host alone. *)
Lemma print_image_banner_host `{C : Codec} trim_string print_frame path
    superblock data w :
  let w' := print_image_banner trim_string print_frame path superblock data w in
  files w' = files w /\ dirs w' = dirs w /\ space w' = space w
  /\ block_reads w' = block_reads w.
Proof.
  unfold print_image_banner. by destruct (_ =? _)%nat.
Qed.



(** ** The patcher *)

Lemma strrchr_None s c : strrchr s c = None <-> ~ str_In c s.
Proof.
  induction s as [|a s IH]; simpl; [tauto|].
  destruct (strrchr s c) as [r|].
  - split; [done|]. intros H. apply IH. intros Hs. apply H. by right.
  - destruct (Ascii.eqb_spec a c) as [->|Hne].
    + split; [done|]. intros H. exfalso. apply H. by left.
    + split; [|done]. intros _ [?|?]; [done|]. by apply IH.
Qed.

Lemma strrchr_last dir c rest :
  ~ str_In c rest -> strrchr (dir +:+ String c rest) c = Some (String c rest).
Proof.
  intros Hrest. induction dir as [|a dir IH].
  - rewrite str_app_nil_l. simpl.
    apply strrchr_None in Hrest. rewrite Hrest. by rewrite Ascii.eqb_refl.
  - rewrite str_app_cons. simpl. by rewrite IH.
Qed.

Lemma path_basename_no_separator path :
  ~ str_In "/"%char path -> path_basename path = path.
Proof.
  intros H. unfold path_basename. apply strrchr_None in H. by rewrite H.
Qed.

Lemma path_basename_after_last_separator dir base :
  ~ str_In "/"%char base -> path_basename (dir +:+ "/" +:+ base) = base.
Proof.
  intros H. unfold path_basename.
  change ("/" +:+ base) with (String "/"%char base).
  by rewrite strrchr_last.
Qed.

(** [Toy.replace] refuses what the chain cannot hold. *)
Lemma toy_enforces_capacity tbl : @enforces_capacity (Toy.codec tbl).
Proof.
  intros inode bytes data. unfold chain_capacity. simpl. unfold Toy.replace.
  destruct (Toy.file_chain tbl inode) as [chain|]; [|done].
  fold (Toy.capacity chain data). intros H.
  destruct (Nat.leb_spec (length bytes) (Toy.capacity chain data)); [lia | done].
Qed.

Lemma snprintf_fits size s :
  (String.length s < size)%nat -> snprintf size s = s.
Proof. intros H. unfold snprintf. apply str_take_all. lia. Qed.

(** C5. When the decoder refuses content larger than the chain of the
    target file, as the spec has it, a replacement whose content exceeds the
    capacity of the chain of the file found makes [ccos_replace_file] fail
    and [replace_file] return -1 with the host as it was: the function
    returns at line 452, before the output is opened at lines 455-463, so no
    image is written. *)
Theorem replace_file_over_capacity_writes_nothing `{C : Codec} (fuel : nat)
    (path filename : string) (target_name : option string) (superblock : Z)
    (data : image) (data_size : nat) (in_place : Z) (w : world)
    (inode : Z) (file_contents : list byte) :
  enforces_capacity ->
  find_filename fuel superblock data
    (replace_file_basename filename target_name) 0 = Some (0, inode) ->
  fopen_rb filename w = Some file_contents ->
  (chain_capacity data inode < length file_contents)%nat ->
  ccos_replace_file inode file_contents data = None
  /\ replace_file fuel path filename target_name superblock data data_size
       in_place w
     = Some (-1, w).
Proof.
  intros Hcodec Hfind Hread Hcap.
  pose proof (Hcodec inode file_contents data Hcap) as Hfail.
  split; [done|].
  unfold replace_file. rewrite Hfind. simpl. by rewrite Hread, Hfail.
Qed.

Lemma replace_file_over_capacity_writes_nothing_witness :
  @replace_file (Toy.codec Toy.disk) 2 "disk.img" "in/c~Text~" None 1
    Toy.disk_image 60 0 replacement_host
  = Some (-1, replacement_host).
Proof.
  apply (@replace_file_over_capacity_writes_nothing (Toy.codec Toy.disk) 2
           "disk.img" "in/c~Text~" None 1 Toy.disk_image 60 0 replacement_host
           5 [x61; x62; x63; x64; x65]).
  - apply toy_enforces_capacity.
  - vm_compute. reflexivity.
  - vm_compute. reflexivity.
  - vm_compute. lia.
Defined.





(** [replace_file] once the file is found, read and replaced in the buffer
    and the output is open: lines 471-480. *)
Lemma replace_file_after_open `{C : Codec} fuel path filename target_name
    superblock data data_size in_place w w1 inode file_contents data' :
  find_filename fuel superblock data
    (replace_file_basename filename target_name) 0 = Some (0, inode) ->
  fopen_rb filename w = Some file_contents ->
  ccos_replace_file inode file_contents data = Some data' ->
  fopen_wb (replace_file_output path in_place) w = Some w1 ->
  replace_file fuel path filename target_name superblock data data_size
    in_place w
  = Some (if (fst (fwrite (replace_file_output path in_place)
                     (take data_size data') w1) =? data_size)%nat
          then 0 else -1,
          snd (fwrite (replace_file_output path in_place)
                 (take data_size data') w1)).
Proof.
  intros Hfind Hread Hreplace Hopen.
  unfold replace_file. rewrite Hfind. cbn [negb Z.eqb]. rewrite Hread, Hreplace, Hopen.
  destruct (fwrite _ _ w1) as [res w2]. cbn [fst snd].
  by destruct (res =? data_size)%nat.
Qed.

(** The same on a host with room for the image. *)
Lemma replace_file_with_room `{C : Codec} fuel path filename target_name
    superblock data data_size in_place w w1 inode file_contents data' :
  find_filename fuel superblock data
    (replace_file_basename filename target_name) 0 = Some (0, inode) ->
  fopen_rb filename w = Some file_contents ->
  ccos_replace_file inode file_contents data = Some data' ->
  fopen_wb (replace_file_output path in_place) w = Some w1 ->
  (data_size <= length data')%nat ->
  (data_size <= space w)%nat ->
  replace_file fuel path filename target_name superblock data data_size
    in_place w
  = Some (0, World (<[replace_file_output path in_place := take data_size data']>
                      (files w))
                   (dirs w) (space w - data_size)%nat (stdout w) (block_reads w)).
Proof.
  intros Hfind Hread Hreplace Hopen Hlen Hspace.
  rewrite (replace_file_after_open _ _ _ _ _ _ _ _ _ _ _ _ _ Hfind Hread Hreplace Hopen).
  apply fopen_wb_Some in Hopen as ->.
  unfold fwrite. cbn [fst snd files dirs space stdout block_reads].
  rewrite lookup_insert_eq. cbn [default app].
  rewrite insert_insert_eq, length_take.
  replace (Nat.min (Nat.min data_size (length data')) (space w))
    with data_size by lia.
  rewrite Nat.eqb_refl. by rewrite take_take, Nat.min_id.
Qed.




(** C10. With an explicit target name [replace_file] looks for that very
    string; with none it looks for what follows the last ['/'] of the path
    of the host file, and for the whole path when it has no ['/']. The file
    replaced is the one the locator finds under that name: when the locator
    fails on it, [replace_file] returns -1 and leaves the host alone; when
    the locator finds a file under it, the content read from the host file
    is handed to [ccos_replace_file] for that very file, whose failure gives
    -1 and whose new image is what a host with room finds in the output,
    with result 0; a result of 0 is never had without the locator having
    found a file under that name. A call without target name does what the
    call with the basename as target name does. *)
Theorem replace_file_searches_basename `{C : Codec} (fuel : nat)
    (path filename : string) (target_name : option string) (superblock : Z)
    (data : image) (data_size : nat) (in_place : Z) (w : world) :
  (forall name, replace_file_basename filename (Some name) = name)
  /\ (~ str_In "/"%char filename -> replace_file_basename filename None = filename)
  /\ (forall dir base,
        filename = dir +:+ "/" +:+ base -> ~ str_In "/"%char base ->
        replace_file_basename filename None = base)
  /\ ~ str_In "/"%char (replace_file_basename filename None)
  /\ (forall res inode,
        find_filename fuel superblock data
          (replace_file_basename filename target_name) 0 = Some (res, inode) ->
        res <> 0 ->
        replace_file fuel path filename target_name superblock data data_size
          in_place w = Some (-1, w))
  /\ replace_file fuel path filename None superblock data data_size in_place w
     = replace_file fuel path filename
         (Some (replace_file_basename filename None)) superblock data data_size
         in_place w
  /\ (forall inode file_contents data' w1,
        find_filename fuel superblock data
          (replace_file_basename filename target_name) 0 = Some (0, inode) ->
        fopen_rb filename w = Some file_contents ->
        ccos_replace_file inode file_contents data = Some data' ->
        fopen_wb (replace_file_output path in_place) w = Some w1 ->
        (data_size <= length data')%nat ->
        (data_size <= space w)%nat ->
        exists w',
          replace_file fuel path filename target_name superblock data data_size
            in_place w = Some (0, w')
          /\ files w' !! replace_file_output path in_place
             = Some (take data_size data'))
  /\ (forall inode file_contents,
        find_filename fuel superblock data
          (replace_file_basename filename target_name) 0 = Some (0, inode) ->
        fopen_rb filename w = Some file_contents ->
        ccos_replace_file inode file_contents data = None ->
        replace_file fuel path filename target_name superblock data data_size
          in_place w = Some (-1, w))
  /\ (forall w',
        replace_file fuel path filename target_name superblock data data_size
          in_place w = Some (0, w') ->
        exists inode file_contents data',
          find_filename fuel superblock data
            (replace_file_basename filename target_name) 0 = Some (0, inode)
          /\ fopen_rb filename w = Some file_contents
          /\ ccos_replace_file inode file_contents data = Some data').
Proof.
  split; [done|].
  split; [apply path_basename_no_separator|].
  split; [intros dir base -> Hbase; by apply path_basename_after_last_separator|].
  split; [|split; [|split; [done|split; [|split]]]].
  - simpl. unfold path_basename.
    destruct (strrchr filename "/") as [r|] eqn:Hr; [|by apply strrchr_None].
    clear -Hr. revert r Hr.
    induction filename as [|a s IH]; intros r Hr; [done|].
    simpl in Hr. destruct (strrchr s "/") as [r'|] eqn:Hs.
    + injection Hr as <-. by apply IH.
    + destruct (Ascii.eqb a "/"); [|done]. injection Hr as <-. simpl.
      by apply strrchr_None.
  - intros res inode Hfind Hres. unfold replace_file. rewrite Hfind.
    apply Z.eqb_neq in Hres. by rewrite Hres.
  - intros inode file_contents data' w1 Hfind Hread Hreplace Hopen Hlen Hspace.
    eexists. split.
    + by apply (replace_file_with_room _ _ _ _ _ _ _ _ _ _ _ _ _
                  Hfind Hread Hreplace Hopen).
    + cbn [files]. apply lookup_insert_eq.
  - intros inode file_contents Hfind Hread Hreplace.
    unfold replace_file. rewrite Hfind. cbn [negb Z.eqb]. by rewrite Hread, Hreplace.
  - intros w' Hrun. unfold replace_file in Hrun.
    destruct (find_filename _ _ _ _ _) as [[found inode]|]; [|done].
    destruct (Z.eqb_spec found 0) as [->|Hne]; [|done]. cbn [negb] in Hrun.
    destruct (fopen_rb filename w) as [file_contents|]; [|done].
    destruct (ccos_replace_file _ _ _) as [data'|] eqn:Hreplace; [|done].
    by exists inode, file_contents, data'.
Qed.

Lemma replace_file_searches_basename_witness :
  exists w',
    @replace_file (Toy.codec Toy.disk) 2 "disk.img" "in/a~Text~"
      (Some "b~Text~") 1 Toy.disk_image 60 0 replacement_host = Some (0, w')
    /\ files w' !! "disk.img.new"
       = Some (take 48 Toy.disk_image ++ [x61; x62; x63; x64; x65]
               ++ drop 53 Toy.disk_image).
Proof.
  destruct (@replace_file_searches_basename (Toy.codec Toy.disk) 2
              "disk.img" "in/a~Text~" (Some "b~Text~") 1 Toy.disk_image 60 0
              replacement_host) as (_ & _ & _ & _ & _ & _ & Hfound & _).
  destruct (Hfound 4 [x61; x62; x63; x64; x65]
              (take 48 Toy.disk_image ++ [x61; x62; x63; x64; x65]
               ++ drop 53 Toy.disk_image)
              (World (<["disk.img.new" := []]> (files replacement_host)) ∅ 100 [] []))
    as (w' & Hrun & Hfile).
  - vm_compute. reflexivity.
  - vm_compute. reflexivity.
  - vm_compute. reflexivity.
  - vm_compute. reflexivity.
  - vm_compute. lia.
  - vm_compute. lia.
  - exists w'. split; [exact Hrun | exact Hfile].
Defined.

(** * Further properties *)

(** ** What the walk keeps, on any image *)

Section InvariantFacts.
Context `{C : Codec}.
Variable data : image.

Lemma reachable_step x a entries e :
  reachable data x a -> ccos_is_dir a data = true ->
  ccos_get_dir_contents a data = Some entries -> In e entries ->
  reachable data x e.
Proof.
  intros Hr Hdir Hc He.
  induction Hr as [x entries0 a Hc0 Ha | x entries0 d a Hc0 Hd Hdd _ IH].
  - eapply reach_below; [exact Hc0 | exact Ha | exact Hdir |].
    by eapply reach_entry.
  - eapply reach_below; [exact Hc0 | exact Hd | exact Hdd | by apply IH].
Qed.

Lemma walked_entry start a entries e :
  walked data start a -> ccos_get_dir_contents a data = Some entries -> In e entries ->
  reachable data start e.
Proof.
  intros [->|[Hr Hd]] Hc He; [by eapply reach_entry | by eapply reachable_step].
Qed.

Context {St : Type}.
Variables on_file on_dir : option (visitor St).
Variable start : Z.
Variable I : St -> Prop.
Variable D : string -> Prop.

Hypothesis on_file_keeps : forall cb b dirname level s,
  on_file = Some cb -> reachable data start b -> ccos_is_dir b data = false ->
  D dirname -> I s -> I (snd (cb b data dirname level s)).
Hypothesis on_dir_keeps : forall cb b dirname level s,
  on_dir = Some cb -> reachable data start b -> ccos_is_dir b data = true ->
  D dirname -> I s -> I (snd (cb b data dirname level s)).
Hypothesis subdir_keeps : forall dirname b name type,
  D dirname ->
  ccos_parse_file_name (ccos_get_file_name b data) = Some (name, type) ->
  D (snprintf PATH_MAX (dirname +:+ "/" +:+ name)).

Lemma call_visitor_keeps cb b dirname level s :
  (forall f, cb = Some f -> I (snd (f b data dirname level s))) -> I s ->
  match call_visitor cb b data dirname level s with
  | Next s' => I s'
  | Return _ s' => I s'
  end.
Proof.
  intros Hcb Hs. unfold call_visitor. destruct cb as [f|]; [|done].
  specialize (Hcb f eq_refl). destruct (f b data dirname level s) as [res s1].
  simpl in Hcb. by destruct (res =? RESULT_OK), (res =? RESULT_ERROR).
Qed.

Lemma traverse_loop_keeps rec dirname level entries s r s' :
  (forall b dn lv s r s',
      reachable data start b -> ccos_is_dir b data = true -> D dn -> I s ->
      rec b dn lv s = Some (r, s') -> I s') ->
  (forall e, In e entries -> reachable data start e) ->
  D dirname -> I s ->
  traverse_loop rec data dirname level on_file on_dir entries s = Some (r, s') ->
  I s'.
Proof.
  intros Hrec. revert s.
  induction entries as [|e entries IH]; intros s Hreach Hd Hs Hrun; simpl in Hrun.
  { by injection Hrun as _ <-. }
  assert (He : reachable data start e) by (apply Hreach; by left).
  assert (Hrest : forall e', In e' entries -> reachable data start e')
    by (intros e' He'; apply Hreach; by right).
  unfold traverse_entry in Hrun.
  destruct (ccos_is_dir e data) eqn:Hdir.
  - destruct (ccos_parse_file_name _) as [[name type]|] eqn:Hname.
    + pose proof (call_visitor_keeps on_dir e dirname level s) as Hcall.
      destruct (call_visitor on_dir e data dirname level s) as [s1|res s1].
      * assert (Hs1 : I s1) by (apply Hcall; [intros f Hf; by eapply on_dir_keeps | done]).
        destruct (rec e _ _ s1) as [[res s2]|] eqn:Hr; [|done].
        assert (Hs2 : I s2).
        { eapply Hrec; [exact He | exact Hdir | | exact Hs1 | exact Hr].
          by eapply subdir_keeps. }
        destruct (res =? -1); [by injection Hrun as _ <- | by eapply IH].
      * injection Hrun as _ <-.
        apply Hcall; [intros f Hf; by eapply on_dir_keeps | done].
    + by injection Hrun as _ <-.
  - pose proof (call_visitor_keeps on_file e dirname level s) as Hcall.
    destruct (call_visitor on_file e data dirname level s) as [s1|res s1].
    + eapply IH; [done | done | | exact Hrun].
      apply Hcall; [intros f Hf; by eapply on_file_keeps | done].
    + injection Hrun as _ <-.
      apply Hcall; [intros f Hf; by eapply on_file_keeps | done].
Qed.

Lemma traverse_keeps_from fuel a dirname level s r s' :
  walked data start a -> D dirname -> I s ->
  traverse_ccos_image fuel a data dirname level on_file on_dir s = Some (r, s') ->
  I s'.
Proof.
  revert a dirname level s r s'.
  induction fuel as [|fuel IH]; intros a dirname level s r s' Ha Hd Hs Hrun; [done|].
  simpl in Hrun.
  destruct (ccos_get_dir_contents a data) as [entries|] eqn:Hc.
  - eapply traverse_loop_keeps; [| | exact Hd | exact Hs | exact Hrun].
    + intros b dn lv s0 r0 s0' Hb Hbd Hdn Hs0 Hr0.
      eapply IH; [right; by split | exact Hdn | exact Hs0 | exact Hr0].
    + intros e He. by eapply walked_entry.
  - by injection Hrun as _ <-.
Qed.

End InvariantFacts.

Lemma traverse_returns_0_or_minus_1 `{C : Codec} {St : Type} data
    (on_file on_dir : option (visitor St)) fuel block dirname level s r s' :
  traverse_ccos_image fuel block data dirname level on_file on_dir s = Some (r, s') ->
  r = 0 \/ r = -1.
Proof.
  revert block dirname level s r s'.
  induction fuel as [|fuel IH]; intros block dirname level s r s' Hrun; [done|].
  simpl in Hrun. destruct (ccos_get_dir_contents block data) as [entries|];
    [|injection Hrun as <- _; by right].
  revert s Hrun. induction entries as [|e entries IHe]; intros s Hrun; simpl in Hrun.
  { injection Hrun as <- _. by left. }
  unfold traverse_entry, call_visitor in Hrun.
  destruct (ccos_is_dir e data).
  - destruct (ccos_parse_file_name _) as [[name type]|];
      [|injection Hrun as <- _; by right].
    destruct on_dir as [f|].
    + destruct (f e data dirname level s) as [res s1].
      destruct (res =? RESULT_OK).
      * destruct (traverse_ccos_image fuel e data _ _ on_file (Some f) s1)
          as [[res' s2]|]; [|done].
        destruct (res' =? -1); [injection Hrun as <- _; by right | by eapply IHe].
      * destruct (res =? RESULT_ERROR); injection Hrun as <- _; auto.
    + destruct (traverse_ccos_image fuel e data _ _ on_file None s)
        as [[res' s2]|]; [|done].
      destruct (res' =? -1); [injection Hrun as <- _; by right | by eapply IHe].
  - destruct on_file as [f|]; [|by eapply IHe].
    destruct (f e data dirname level s) as [res s1].
    destruct (res =? RESULT_OK); [by eapply IHe|].
    destruct (res =? RESULT_ERROR); injection Hrun as <- _; auto.
Qed.

(** X1. On any image, well-formed or not, and whatever the visitors answer,
    every visitor call of a walk that returns is on an entry reachable from
    the start block; the file visitor is only called on entries the decoder
    classifies as files, the directory visitor only on directories. The walk
    returns 0 or -1. *)
Theorem traverse_calls_only_reachable_entries `{C : Codec} {St : Type}
    (data : image) (on_file on_dir : visitor St) (fuel : nat) (block : Z)
    (dirname : string) (level : Z) (s s' : St) (r : Z) (log : list event) :
  traverse_ccos_image fuel block data dirname level
    (Some (logged false on_file)) (Some (logged true on_dir)) (s, [])
  = Some (r, (s', log)) ->
  (r = 0 \/ r = -1)
  /\ Forall (fun e => reachable data block (ev_block e)
                      /\ ev_is_dir e = ccos_is_dir (ev_block e) data) log.
Proof.
  intros Hrun. split; [by eapply traverse_returns_0_or_minus_1|].
  change log with (snd (s', log)).
  eapply (traverse_keeps_from data _ _ block
            (fun st : St * list event =>
               Forall (fun e => reachable data block (ev_block e)
                                /\ ev_is_dir e = ccos_is_dir (ev_block e) data)
                      (snd st))
            (fun _ => True));
    [| | done | by left | done | | exact Hrun]; [| |by constructor].
  - intros cb b dn lv st [= <-] Hb Hfile _ Hst. unfold logged.
    destruct (on_file b data dn lv (fst st)) as [res s1]. simpl.
    apply Forall_app. split; [done|]. by repeat constructor.
  - intros cb b dn lv st [= <-] Hb Hdir _ Hst. unfold logged.
    destruct (on_dir b data dn lv (fst st)) as [res s1]. simpl.
    apply Forall_app. split; [done|]. by repeat constructor.
Qed.

Lemma traverse_calls_only_reachable_entries_witness :
  Forall (fun e => reachable (C := Toy.codec disk_undecodable) Toy.disk_image 1
                     (ev_block e)
                   /\ ev_is_dir e
                      = @ccos_is_dir (Toy.codec disk_undecodable) (ev_block e)
                          Toy.disk_image)
         [Event false 2 "" 0; Event true 3 "" 0; Event false 4 "/sub" 1;
          Event true 7 "/sub" 1].
Proof.
  apply (@traverse_calls_only_reachable_entries (Toy.codec disk_undecodable) _
           Toy.disk_image (break_at 0) (break_at 0) 3 1 "" 0 []
           [2; 3; 4; 7] (-1)).
  vm_compute. reflexivity.
Defined.

(** X2. Listing never touches the host: whenever [print_image_info]
    returns, on any image and with any result, the files, the directories
    and the free space are as before, and what was on [stdout] is still
    there, in front of what the listing printed. *)
Theorem print_image_info_only_prints `{C : Codec}
    (trim_string : option string -> ascii -> string) (print_frame : nat -> string)
    (data : image) (fuel : nat) (path : string) (superblock : Z)
    (w w' : world) (r : Z) :
  print_image_info trim_string print_frame fuel path superblock data w
  = Some (r, w') ->
  (r = 0 \/ r = -1)
  /\ files w' = files w /\ dirs w' = dirs w /\ space w' = space w
  /\ block_reads w' = block_reads w
  /\ exists printed, stdout w' = stdout w ++ printed.
Proof.
  unfold print_image_info. intros Hrun.
  split; [by eapply traverse_returns_0_or_minus_1|].
  eapply (traverse_keeps_from data _ _ superblock
            (fun w' => files w' = files w /\ dirs w' = dirs w
                       /\ space w' = space w /\ block_reads w' = block_reads w
                       /\ exists printed, stdout w' = stdout w ++ printed)
            (fun _ => True));
    [| | done | by left | done | | exact Hrun].
  - intros cb b dn lv w0 [= <-] _ _ _ (Hf & Hd & Hs & Hb & out & Hout).
    unfold print_file_info. destruct (ccos_parse_file_name _) as [[? ?]|]; simpl.
    + repeat split; try done. exists (out ++ [table_row (formatted_name s lv) s0
        (fmt_d (to_int32 (ccos_get_file_size b data)))
        (format_version (ccos_get_file_version b data))
        (format_date (ccos_get_creation_date b data))
        (format_date (ccos_get_mod_date b data))
        (format_date (ccos_get_exp_date b data))]).
      by rewrite Hout, <- app_assoc.
    + repeat split; try done. by exists out.
  - intros cb b dn lv w0 [= <-] _ _ _ (Hf & Hd & Hs & Hb & out & Hout).
    unfold print_file_info. destruct (ccos_parse_file_name _) as [[? ?]|]; simpl.
    + repeat split; try done. eexists. rewrite Hout, <- app_assoc. reflexivity.
    + repeat split; try done. by exists out.
  - destruct (print_image_banner_host trim_string print_frame path superblock
                data w) as (Hf & Hd & Hs & Hb).
    unfold printf. cbn [files dirs space stdout block_reads].
    repeat split; try done.
    unfold print_image_banner, printf.
    destruct (_ =? _)%nat; cbn [stdout]; eexists;
      rewrite <- !app_assoc; reflexivity.
Qed.

Lemma print_image_info_only_prints_witness :
  exists w',
    @print_image_info (Toy.codec disk_undecodable)
      (fun name _ => default "" name) spaces 3 "disk.img" 1
      Toy.disk_image replacement_host = Some (-1, w')
    /\ files w' = files replacement_host
    /\ space w' = space replacement_host.
Proof.
  pose (w' := snd (default (0, replacement_host)
                     (@print_image_info (Toy.codec disk_undecodable)
                        (fun name _ => default "" name) spaces 3 "disk.img" 1
                        Toy.disk_image replacement_host))).
  destruct (@print_image_info_only_prints (Toy.codec disk_undecodable)
              (fun name _ => default "" name) spaces Toy.disk_image 3 "disk.img" 1
              replacement_host w' (-1))
    as (_ & Hfiles & _ & Hspace & _).
  - vm_compute. reflexivity.
  - exists w'. split; [vm_compute; reflexivity|]. split; [exact Hfiles | exact Hspace].
Defined.

(** X3. On any image, a success of [find_filename] names a file that is
    there: the identifier it stores is nonzero, reachable from the
    superblock, classified as a file, and its decoded, separator-substituted
    name is the target. Any other return is -1 with [*inode] untouched. *)
Theorem find_filename_sound `{C : Codec} (data : image) (fuel : nat)
    (superblock : Z) (filename : string) (inode : Z) (r found : Z) :
  find_filename fuel superblock data filename inode = Some (r, found) ->
  (r = 0 /\ found <> 0 /\ reachable data superblock found
   /\ ccos_is_dir found data = false
   /\ decoded_name data found = Some filename)
  \/ (r = -1 /\ found = inode).
Proof.
  unfold find_filename.
  destruct (traverse_ccos_image fuel superblock data "" 0
              (Some find_file_on_file) None (FindFileData filename 0))
    as [[res fd]|] eqn:Hrun; [|done].
  assert (Hinv : target_name fd = filename
                 /\ (target_inode fd = 0
                     \/ (reachable data superblock (target_inode fd)
                         /\ ccos_is_dir (target_inode fd) data = false
                         /\ decoded_name data (target_inode fd) = Some filename))).
  { eapply (traverse_keeps_from data _ _ superblock
              (fun fd => target_name fd = filename
                 /\ (target_inode fd = 0
                     \/ (reachable data superblock (target_inode fd)
                         /\ ccos_is_dir (target_inode fd) data = false
                         /\ decoded_name data (target_inode fd) = Some filename)))
              (fun _ => True));
      [| | done | by left | done | | exact Hrun]; [|done|by split; [|left]].
    intros cb b dn lv fd0 [= <-] Hb Hfile _ [Hname Hfd0].
    unfold find_file_on_file.
    destruct (ccos_short_string_to_string _) as [name|] eqn:Hn; [|done].
    destruct (String.eqb_spec (target_name fd0) (replace_char_in_place name "/" "_"))
      as [Heq|]; [|done].
    simpl. split; [done|]. right. split; [done|]. split; [done|].
    unfold decoded_name. rewrite Hn. congruence. }
  destruct Hinv as [_ Hfd].
  destruct (res =? -1); [intros [= <- <-]; by right|].
  destruct (Z.eqb_spec (target_inode fd) 0) as [H0|Hne];
    [intros [= <- <-]; by right|].
  intros [= <- <-]. left. destruct Hfd as [?|(? & ? & ?)]; [done|]. done.
Qed.

Lemma find_filename_sound_witness :
  (0 = 0 /\ 5 <> 0
   /\ reachable (C := Toy.codec disk_two_matches) Toy.disk_image 1 5
   /\ @ccos_is_dir (Toy.codec disk_two_matches) 5 Toy.disk_image = false
   /\ @decoded_name (Toy.codec disk_two_matches) Toy.disk_image 5 = Some "b~Text~")
  \/ (0 = -1 /\ 5 = 0).
Proof.
  apply (@find_filename_sound (Toy.codec disk_two_matches) Toy.disk_image 3 1
           "b~Text~" 0 0 5).
  vm_compute. reflexivity.
Defined.

(** ** Verdicts and failures inside the walk *)

Section VerdictFacts.
Context `{C : Codec}.
Variable data : image.
Context {St : Type}.
Variables on_file on_dir : option (visitor St).

(** The call on a directory whose loop has come to the entry [e]. *)
Lemma traverse_at_entry fuel d dirname level before e after (s s0 : St) :
  ccos_get_dir_contents d data = Some (before ++ e :: after) ->
  traverse_prefix data on_file on_dir
    (fun b dn lv a => traverse_ccos_image fuel b data dn lv on_file on_dir a)
    dirname level before s = Some s0 ->
  traverse_ccos_image (S fuel) d data dirname level on_file on_dir s
  = match traverse_entry
            (fun b dn lv a => traverse_ccos_image fuel b data dn lv on_file on_dir a)
            data dirname level on_file on_dir e s0 with
    | None => None
    | Some (Return res s1) => Some (res, s1)
    | Some (Next s1) =>
        traverse_loop
          (fun b dn lv a => traverse_ccos_image fuel b data dn lv on_file on_dir a)
          data dirname level on_file on_dir after s1
    end.
Proof.
  intros Hc Hpre. simpl. rewrite Hc.
  by rewrite (traverse_loop_prefix data on_file on_dir _ _ _ _ _ _ _ Hpre).
Qed.

Lemma traverse_entry_verdict rec dirname level e (s0 s1 : St) cb res :
  visitor_of data on_file on_dir e = Some cb ->
  (ccos_is_dir e data = true ->
   is_Some (ccos_parse_file_name (ccos_get_file_name e data))) ->
  cb e data dirname level s0 = (res, s1) ->
  res <> RESULT_OK ->
  traverse_entry rec data dirname level on_file on_dir e s0
  = Some (Return (if res =? RESULT_ERROR then -1 else 0) s1).
Proof.
  unfold visitor_of, traverse_entry. intros Hv Hname Hcb Hres.
  apply Z.eqb_neq in Hres.
  destruct (ccos_is_dir e data).
  - destruct (Hname eq_refl) as [[name type] ->].
    unfold call_visitor. rewrite Hv, Hcb, Hres.
    by destruct (res =? RESULT_ERROR).
  - unfold call_visitor. rewrite Hv, Hcb, Hres.
    by destruct (res =? RESULT_ERROR).
Qed.

End VerdictFacts.

(** X4. An abort verdict ends the whole walk, at any depth: when the walk
    has come, through any chain of nested directories, to the entry [e] of
    the directory [d] and the visitor called on [e] returns [RESULT_ERROR],
    the call on the start block returns -1 in the state the visitor left; no
    later entry is visited, in [d] or further up. *)
Theorem visitor_abort_ends_walk `{C : Codec} {St : Type} (data : image)
    (on_file on_dir : option (visitor St)) (cb : visitor St)
    (fuel : nat) (block : Z) (dirname : string) (level : Z) (s : St)
    (fuel' : nat) (d : Z) (dirname' : string) (level' : Z) (s' s0 s1 : St)
    (before after : list Z) (e : Z) :
  enters data on_file on_dir fuel block dirname level s
         (S fuel') d dirname' level' s' ->
  ccos_get_dir_contents d data = Some (before ++ e :: after) ->
  traverse_prefix data on_file on_dir
    (fun b dn lv a => traverse_ccos_image fuel' b data dn lv on_file on_dir a)
    dirname' level' before s' = Some s0 ->
  visitor_of data on_file on_dir e = Some cb ->
  (ccos_is_dir e data = true ->
   is_Some (ccos_parse_file_name (ccos_get_file_name e data))) ->
  cb e data dirname' level' s0 = (RESULT_ERROR, s1) ->
  traverse_ccos_image fuel block data dirname level on_file on_dir s
  = Some (-1, s1).
Proof.
  intros Henters Hc Hpre Hv Hname Hcb.
  eapply enters_propagates; [exact Henters|].
  rewrite (traverse_at_entry data on_file on_dir _ _ _ _ _ _ _ _ _ Hc Hpre).
  by rewrite (traverse_entry_verdict data on_file on_dir _ _ _ _ _ _ _ _
                Hv Hname Hcb).
Qed.

Lemma visitor_abort_ends_walk_witness :
  @traverse_ccos_image (Toy.codec Toy.disk) _ 3 1 Toy.disk_image "" 0
    (Some (abort_at 4)) None []
  = Some (-1, [2; 4]).
Proof.
  apply (@visitor_abort_ends_walk (Toy.codec Toy.disk) _ Toy.disk_image
           (Some (abort_at 4)) None (abort_at 4)
           3 1 "" 0 [] 1 3 "/sub" 1 [2] [2] [2; 4] [] [] 4).
  - eapply enters_below with (before := [2]) (sub := 3) (after := [5]);
      try reflexivity.
    apply enters_here.
  - reflexivity.
  - reflexivity.
  - reflexivity.
  - discriminate.
  - reflexivity.
Defined.

(** X5. Any verdict that is neither [RESULT_OK] nor [RESULT_ERROR]
    ([RESULT_BREAK], but also the -1 of line 292) ends the walk of the
    directory in which it is returned, with 0: the entries after [e] in that
    directory are not visited, and a directory on which the directory
    visitor says so is not entered. At the start block this is the result
    of the whole walk. *)
Theorem visitor_stop_ends_directory `{C : Codec} {St : Type} (data : image)
    (on_file on_dir : option (visitor St)) (cb : visitor St)
    (fuel : nat) (d : Z) (dirname : string) (level : Z) (s s0 s1 : St)
    (before after : list Z) (e : Z) (res : Z) :
  ccos_get_dir_contents d data = Some (before ++ e :: after) ->
  traverse_prefix data on_file on_dir
    (fun b dn lv a => traverse_ccos_image fuel b data dn lv on_file on_dir a)
    dirname level before s = Some s0 ->
  visitor_of data on_file on_dir e = Some cb ->
  (ccos_is_dir e data = true ->
   is_Some (ccos_parse_file_name (ccos_get_file_name e data))) ->
  cb e data dirname level s0 = (res, s1) ->
  res <> RESULT_OK -> res <> RESULT_ERROR ->
  traverse_ccos_image (S fuel) d data dirname level on_file on_dir s
  = Some (0, s1).
Proof.
  intros Hc Hpre Hv Hname Hcb Hok Herr.
  rewrite (traverse_at_entry data on_file on_dir _ _ _ _ _ _ _ _ _ Hc Hpre).
  rewrite (traverse_entry_verdict data on_file on_dir _ _ _ _ _ _ _ _
             Hv Hname Hcb Hok).
  apply Z.eqb_neq in Herr. by rewrite Herr.
Qed.

Lemma visitor_stop_ends_directory_witness :
  @traverse_ccos_image (Toy.codec disk_undecodable) _ 2 3 Toy.disk_image "/sub" 1
    (Some (break_at 4)) None [2]
  = Some (0, [2; 4]).
Proof.
  apply (@visitor_stop_ends_directory (Toy.codec disk_undecodable) _
           Toy.disk_image (Some (break_at 4)) None (break_at 4)
           1 3 "/sub" 1 [2] [2] [2; 4] [] [7; 8] 4 RESULT_BREAK).
  - reflexivity.
  - reflexivity.
  - reflexivity.
  - discriminate.
  - reflexivity.
  - discriminate.
  - discriminate.
Defined.

(** X6. A directory whose name cannot be parsed aborts the whole walk: when
    the walk has come, through any chain of nested directories, to the
    entry [e] of [d], [e] is a directory and [ccos_parse_file_name] fails on
    its name, the call on the start block returns -1 in the state reached
    before [e]: the directory visitor is not called on [e]. *)
Theorem unparsable_directory_name_aborts_walk `{C : Codec} {St : Type}
    (data : image) (on_file on_dir : option (visitor St))
    (fuel : nat) (block : Z) (dirname : string) (level : Z) (s : St)
    (fuel' : nat) (d : Z) (dirname' : string) (level' : Z) (s' s0 : St)
    (before after : list Z) (e : Z) :
  enters data on_file on_dir fuel block dirname level s
         (S fuel') d dirname' level' s' ->
  ccos_get_dir_contents d data = Some (before ++ e :: after) ->
  traverse_prefix data on_file on_dir
    (fun b dn lv a => traverse_ccos_image fuel' b data dn lv on_file on_dir a)
    dirname' level' before s' = Some s0 ->
  ccos_is_dir e data = true ->
  ccos_parse_file_name (ccos_get_file_name e data) = None ->
  traverse_ccos_image fuel block data dirname level on_file on_dir s
  = Some (-1, s0).
Proof.
  intros Henters Hc Hpre Hdir Hname.
  eapply enters_propagates; [exact Henters|].
  rewrite (traverse_at_entry data on_file on_dir _ _ _ _ _ _ _ _ _ Hc Hpre).
  unfold traverse_entry. by rewrite Hdir, Hname.
Qed.

Lemma unparsable_directory_name_aborts_walk_witness :
  @traverse_ccos_image (Toy.codec disk_unnamed_dir) _ 3 1 Toy.disk_image "" 0
    (Some (break_at 0)) (Some (break_at 0)) []
  = Some (-1, [2; 3; 4]).
Proof.
  apply (@unparsable_directory_name_aborts_walk (Toy.codec disk_unnamed_dir) _
           Toy.disk_image (Some (break_at 0)) (Some (break_at 0))
           3 1 "" 0 [] 1 3 "/sub" 1 [2; 3] [2; 3; 4] [4] [8] 7).
  - eapply enters_below with (before := [2]) (sub := 3) (after := [5]);
      try reflexivity.
    apply enters_here.
  - reflexivity.
  - reflexivity.
  - reflexivity.
  - reflexivity.
Defined.

(** ** More on the extraction of a file *)

Section ChainFacts.
Context `{C : Codec}.
Variable data : image.

(** The loop over a chain whose first blocks [chain] decode, on a host with
    room: after them it goes on with the rest. *)
Lemma dump_blocks_ok_app abspath file_size chain payloads rest c w :
  0 <= file_size < 2 ^ 32 ->
  chain_payloads data chain payloads ->
  files w !! abspath = Some c ->
  (length c <= Z.to_nat file_size)%nat ->
  (Z.to_nat file_size - length c <= space w)%nat ->
  dump_blocks data abspath file_size (chain ++ rest) (Z.of_nat (length c)) w
  = dump_blocks data abspath file_size rest
      (Z.of_nat (length (c ++ take (Z.to_nat file_size - length c) (concat payloads))))
      (World (<[abspath := c ++ take (Z.to_nat file_size - length c) (concat payloads)]>
                (files w))
             (dirs w)
             (space w
              - length (take (Z.to_nat file_size - length c) (concat payloads)))%nat
             (stdout w) (block_reads w ++ chain)).
Proof.
  intros Hsize Hchain. revert c w.
  induction Hchain as [|b p chain payloads Hb _ IH]; intros c w Hc Hlen Hspace.
  - simpl. rewrite take_nil, !app_nil_r. simpl. rewrite Nat.sub_0_r.
    rewrite insert_id by done. by destruct w.
  - simpl app. simpl dump_blocks. rewrite Hb.
    rewrite write_size_min by lia.
    replace (Z.to_nat (file_size - Z.of_nat (length c)))
      with (Z.to_nat file_size - length c)%nat by lia.
    set (n := (Z.to_nat file_size - length c)%nat) in *.
    set (ws := Nat.min n (length p)).
    unfold fwrite, note_block_read. simpl.
    rewrite Hc. simpl.
    assert (Hws : length (take ws p) = ws) by (rewrite length_take; lia).
    rewrite Hws.
    replace (Nat.min ws (space w)) with ws by lia.
    rewrite Nat.ltb_irrefl.
    rewrite (take_ge (take ws p)) by lia.
    rewrite to_uint32_small by lia.
    replace (Z.of_nat (length c) + Z.of_nat ws)
      with (Z.of_nat (length (c ++ take ws p)))
      by (rewrite length_app, Hws; lia).
    rewrite IH; simpl.
    + rewrite insert_insert_eq.
      assert (Heq : (c ++ take ws p)
                    ++ take (Z.to_nat file_size - length (c ++ take ws p))
                            (concat payloads)
                    = c ++ take n (p ++ concat payloads)).
      { rewrite length_app, Hws.
        replace (Z.to_nat file_size - (length c + ws))%nat with (n - ws)%nat by lia.
        rewrite (take_min_app n p (concat payloads)). fold ws.
        by rewrite <- app_assoc. }
      pose proof (f_equal length Heq) as Hlens.
      rewrite Heq. f_equal. f_equal; [|by rewrite <- app_assoc].
      rewrite !length_app, Hws in Hlens. rewrite length_app, Hws. lia.
    + apply lookup_insert_eq.
    + rewrite length_app, Hws. lia.
    + rewrite length_app, Hws. lia.
Qed.

End ChainFacts.

(** X8. A file whose chain holds fewer bytes than its logical size is
    extracted without an error: the result is [RESULT_OK] and the host file
    holds the whole chain, which is shorter than the logical size. *)
Theorem dump_dir_tree_on_file_short_chain `{C : Codec} (data : image)
    (block : Z) (dirname : string) (level : Z) (w w1 : world)
    (abspath : string) (chain : list Z) (payloads : list (list byte)) :
  dump_path block data dirname = Some abspath ->
  ccos_get_file_blocks block data = Some chain ->
  chain_payloads data chain payloads ->
  fopen_wb abspath w = Some w1 ->
  (length (concat payloads) < Z.to_nat (ccos_get_file_size block data))%nat ->
  (Z.to_nat (ccos_get_file_size block data) <= space w)%nat ->
  exists w',
    dump_dir_tree_on_file block data dirname level w = (RESULT_OK, w')
    /\ files w' !! abspath = Some (concat payloads)
    /\ space w' = (space w - length (concat payloads))%nat.
Proof.
  intros Hpath Hchain Hpay Hopen Hshort Hspace.
  eexists. split; [by eapply dump_dir_tree_on_file_ok|]. simpl.
  rewrite take_ge by lia. split; [apply lookup_insert_eq | done].
Qed.

Lemma dump_dir_tree_on_file_short_chain_witness :
  exists w',
    @dump_dir_tree_on_file (Toy.codec disk_short_chain) 2 Toy.disk_image "out" 0
      (Toy.host 100) = (RESULT_OK, w')
    /\ files w' !! "out/a~Text~"
       = Some [x28; x29; x2a; x2b; x2c; x2d; x2e; x2f]
    /\ space w' = 92%nat.
Proof.
  destruct (@dump_dir_tree_on_file_short_chain (Toy.codec disk_short_chain)
              Toy.disk_image 2 "out" 0 (Toy.host 100)
              (World {["out/a~Text~" := []]} ∅ 100 [] [])
              "out/a~Text~" [10; 11]
              [[x28; x29; x2a; x2b]; [x2c; x2d; x2e; x2f]])
    as (w' & Hrun & Hfile & Hspace).
  - reflexivity.
  - reflexivity.
  - repeat constructor.
  - reflexivity.
  - vm_compute. lia.
  - vm_compute. lia.
  - exists w'. split; [exact Hrun|]. split; [exact Hfile | exact Hspace].
Defined.

(** X9. When a data block of the chain cannot be decoded, the extraction of
    the file fails with [RESULT_ERROR] at that block: the blocks after it
    are not asked for, and the host file is left behind with what the
    blocks before it gave (cut at the logical size). *)
Theorem dump_dir_tree_on_file_undecodable_block `{C : Codec} (data : image)
    (block : Z) (dirname : string) (level : Z) (w w1 : world)
    (abspath : string) (before after : list Z) (bad : Z)
    (payloads : list (list byte)) :
  dump_path block data dirname = Some abspath ->
  ccos_get_file_blocks block data = Some (before ++ bad :: after) ->
  chain_payloads data before payloads ->
  ccos_get_block_data bad data = None ->
  fopen_wb abspath w = Some w1 ->
  (Z.to_nat (ccos_get_file_size block data) <= space w)%nat ->
  exists w',
    dump_dir_tree_on_file block data dirname level w = (RESULT_ERROR, w')
    /\ files w' !! abspath
       = Some (take (Z.to_nat (ccos_get_file_size block data)) (concat payloads))
    /\ block_reads w' = block_reads w ++ before ++ [bad].
Proof.
  intros Hpath Hchain Hpay Hbad Hopen Hspace.
  unfold dump_dir_tree_on_file. rewrite Hpath, Hchain, Hopen.
  apply fopen_wb_Some in Hopen as ->.
  rewrite (dump_blocks_ok_app data abspath _ before payloads (bad :: after) [] _
             (ccos_get_file_size_range block data) Hpay);
    simpl; [| apply lookup_insert_eq | lia | lia].
  rewrite Hbad. eexists. split; [done|]. simpl.
  rewrite insert_insert_eq, Nat.sub_0_r.
  split; [apply lookup_insert_eq | by rewrite <- app_assoc].
Qed.

Lemma dump_dir_tree_on_file_undecodable_block_witness :
  exists w',
    @dump_dir_tree_on_file (Toy.codec disk_slack_undecodable) 4 Toy.disk_image
      "out" 0 (Toy.host 100) = (RESULT_ERROR, w')
    /\ files w' !! "out/b~Text~" = Some [x30; x31; x32; x33]
    /\ block_reads w' = [12; 20].
Proof.
  destruct (@dump_dir_tree_on_file_undecodable_block
              (Toy.codec disk_slack_undecodable) Toy.disk_image 4 "out" 0
              (Toy.host 100) (World {["out/b~Text~" := []]} ∅ 100 [] [])
              "out/b~Text~" [12] [] 20 [[x30; x31; x32; x33]])
    as (w' & Hrun & Hfile & Hreads).
  - reflexivity.
  - reflexivity.
  - repeat constructor.
  - reflexivity.
  - reflexivity.
  - vm_compute. lia.
  - exists w'. split; [exact Hrun|]. split; [exact Hfile | exact Hreads].
Defined.

(** ** Names and paths *)

Lemma replace_char_in_place_removes s from to :
  from <> to -> ~ str_In from (replace_char_in_place s from to).
Proof.
  intros Hne. induction s as [|a s IH]; simpl; [tauto|].
  intros [H|H]; [|by apply IH].
  destruct (Ascii.eqb_spec a from); congruence.
Qed.

Lemma replace_char_in_place_absent s from to :
  ~ str_In from s -> replace_char_in_place s from to = s.
Proof.
  induction s as [|a s IH]; simpl; [done|]. intros H.
  destruct (Ascii.eqb_spec a from) as [->|_]; [exfalso; apply H; by left|].
  rewrite IH; [done|]. intros Hs. apply H. by right.
Qed.

Lemma replace_char_in_place_present s from to :
  from <> to -> str_In from s -> replace_char_in_place s from to <> s.
Proof.
  intros Hne Hin Heq.
  apply (replace_char_in_place_removes s from to Hne). by rewrite Heq.
Qed.

Lemma decoded_name_no_separator `{C : Codec} data b name :
  decoded_name data b = Some name -> ~ str_In "/"%char name.
Proof.
  unfold decoded_name. destruct (ccos_short_string_to_string _); [|done].
  intros [= <-]. by apply replace_char_in_place_removes.
Qed.

Lemma dump_path_decoded `{C : Codec} data b dirname name :
  decoded_name data b = Some name ->
  dump_path b data dirname = Some (snprintf PATH_MAX (dirname +:+ "/" +:+ name)).
Proof.
  unfold decoded_name, dump_path.
  destruct (ccos_short_string_to_string _); [|done]. by intros [= <-].
Qed.

(** On a well-formed image a name that some file has is found. *)
Lemma find_filename_complete `{C : Codec} data fuel superblock filename inode cs b :
  image_tree data superblock cs = true ->
  (forest_depth cs < fuel)%nat ->
  Forall (fun b => is_Some (decoded_name data b)) (flat_map file_blocks cs) ->
  Forall (fun b => b <> 0) (flat_map file_blocks cs) ->
  In b (flat_map file_blocks cs) ->
  decoded_name data b = Some filename ->
  exists found,
    find_filename fuel superblock data filename inode = Some (0, found)
    /\ In found (flat_map file_blocks cs)
    /\ decoded_name data found = Some filename.
Proof.
  intros Htree Hfuel Hnames Hnonzero Hb Hname.
  destruct (find_walk data fuel superblock "" 0 cs (FindFileData filename 0)
              Htree Hfuel Hnames) as (fd' & Hrun & _ & Hfound).
  simpl in Hfound.
  assert (Hex : existsb (name_matches data filename) (flat_map file_blocks cs) = true)
    by (apply existsb_name_matches; by exists b).
  rewrite Hex in Hfound. destruct Hfound as [Hin Hm].
  unfold find_filename. rewrite Hrun. simpl.
  assert (Hnz : target_inode fd' <> 0).
  { rewrite Forall_forall in Hnonzero. apply Hnonzero. by apply list_elem_of_In. }
  apply Z.eqb_neq in Hnz. rewrite Hnz.
  exists (target_inode fd'). split; [done|]. split; [done|].
  unfold name_matches in Hm.
  destruct (decoded_name data (target_inode fd')) as [name|]; [|done].
  apply String.eqb_eq in Hm. by subst.
Qed.

(** X10. Extraction and replacement agree on names. A file whose decoded,
    separator-substituted name is [name] is extracted to [dirname/name] (a
    path that fits [PATH_MAX]); given that path as the host file and no
    target name, [replace_file] looks for [name], and on a well-formed
    image the locator finds a file of that name, also when the name in the
    image contains ['/']. *)
Theorem extracted_path_locates_file `{C : Codec} (data : image) (fuel : nat)
    (superblock : Z) (cs : list tree) (block : Z) (dirname name : string)
    (inode : Z) :
  image_tree data superblock cs = true ->
  (forest_depth cs < fuel)%nat ->
  Forall (fun b => is_Some (decoded_name data b)) (flat_map file_blocks cs) ->
  Forall (fun b => b <> 0) (flat_map file_blocks cs) ->
  In block (flat_map file_blocks cs) ->
  decoded_name data block = Some name ->
  (String.length (dirname +:+ "/" +:+ name) < PATH_MAX)%nat ->
  dump_path block data dirname = Some (dirname +:+ "/" +:+ name)
  /\ replace_file_basename (dirname +:+ "/" +:+ name) None = name
  /\ exists found,
       find_filename fuel superblock data
         (replace_file_basename (dirname +:+ "/" +:+ name) None) inode
       = Some (0, found)
       /\ decoded_name data found = Some name.
Proof.
  intros Htree Hfuel Hnames Hnonzero Hb Hname Hfits.
  assert (Hbase : replace_file_basename (dirname +:+ "/" +:+ name) None = name).
  { simpl. apply path_basename_after_last_separator.
    by eapply decoded_name_no_separator. }
  split; [|split; [done|]].
  - rewrite (dump_path_decoded _ _ _ _ Hname). by rewrite snprintf_fits.
  - rewrite Hbase.
    destruct (find_filename_complete data fuel superblock name inode cs block)
      as (found & Hrun & _ & Hfound); try done.
    by exists found.
Qed.

Lemma extracted_path_locates_file_witness :
  @dump_path (Toy.codec disk_slash_name) 5 Toy.disk_image "out"
  = Some "out/XON_XOFF~Printer~"
  /\ replace_file_basename "out/XON_XOFF~Printer~" None = "XON_XOFF~Printer~"
  /\ exists found,
       @find_filename (Toy.codec disk_slash_name) 2 1 Toy.disk_image
         (replace_file_basename "out/XON_XOFF~Printer~" None) 0
       = Some (0, found)
       /\ @decoded_name (Toy.codec disk_slash_name) Toy.disk_image found
          = Some "XON_XOFF~Printer~".
Proof.
  apply (@extracted_path_locates_file (Toy.codec disk_slash_name) Toy.disk_image
           2 1 Toy.disk_tree 5 "out" "XON_XOFF~Printer~" 0).
  - vm_compute. reflexivity.
  - vm_compute. lia.
  - repeat constructor; eexists; reflexivity.
  - repeat constructor; discriminate.
  - vm_compute. tauto.
  - reflexivity.
  - apply Nat.ltb_lt. vm_compute. reflexivity.
Defined.

(** X11. On a well-formed image in which exactly one file has the name
    looked for, [find_filename] returns that file, wherever it is in the
    tree. *)
Theorem find_filename_unique_name `{C : Codec} (data : image) (fuel : nat)
    (superblock : Z) (filename : string) (inode : Z) (cs : list tree) (b : Z) :
  image_tree data superblock cs = true ->
  (forest_depth cs < fuel)%nat ->
  Forall (fun b => is_Some (decoded_name data b)) (flat_map file_blocks cs) ->
  Forall (fun b => b <> 0) (flat_map file_blocks cs) ->
  In b (flat_map file_blocks cs) ->
  decoded_name data b = Some filename ->
  (forall b', In b' (flat_map file_blocks cs) ->
              decoded_name data b' = Some filename -> b' = b) ->
  find_filename fuel superblock data filename inode = Some (0, b).
Proof.
  intros Htree Hfuel Hnames Hnonzero Hb Hname Huniq.
  destruct (find_filename_complete data fuel superblock filename inode cs b)
    as (found & Hrun & Hin & Hfound); try done.
  by rewrite (Huniq found Hin Hfound) in Hrun.
Qed.

Lemma find_filename_unique_name_witness :
  @find_filename (Toy.codec Toy.disk) 2 1 Toy.disk_image "b~Text~" 0 = Some (0, 4).
Proof.
  apply (@find_filename_unique_name (Toy.codec Toy.disk) Toy.disk_image 2 1
           "b~Text~" 0 Toy.disk_tree 4).
  - vm_compute. reflexivity.
  - vm_compute. lia.
  - repeat constructor; eexists; reflexivity.
  - repeat constructor; discriminate.
  - vm_compute. tauto.
  - reflexivity.
  - intros b' Hin Hname. vm_compute in Hin.
    destruct Hin as [<-|[<-|[<-|[]]]]; [discriminate | reflexivity | discriminate].
Defined.

(** ** The directory visitor of the extractor *)

Lemma replace_char_in_place_length s from to :
  String.length (replace_char_in_place s from to) = String.length s.
Proof. induction s as [|a s IH]; simpl; [done | by rewrite IH]. Qed.

Lemma mkdir_Some path w w' :
  mkdir path w = Some w' ->
  w' = World (files w) ({[path]} ∪ dirs w) (space w) (stdout w) (block_reads w).
Proof. unfold mkdir. destruct (_ || _); [done|]. by intros [= <-]. Qed.

Lemma mkdir_exists path w :
  path ∈ dirs w \/ is_Some (files w !! path) -> mkdir path w = None.
Proof.
  intros H. unfold mkdir. destruct H as [H|H].
  - by rewrite (bool_decide_eq_true_2 _ H).
  - rewrite (bool_decide_eq_true_2 _ H). by rewrite orb_true_r.
Qed.

(** X12. For a directory whose name has no ['/'], the path that
    [dump_dir_tree_on_dir] hands to [mkdir] is the very path the walker
    hands to the entries of that directory as their [dirname]. When [mkdir]
    succeeds the visitor returns [RESULT_OK] and the host has gained that
    directory and nothing else; when [mkdir] fails, as it does when
    something is at that path already, the visitor returns [RESULT_ERROR]
    and the host is as before. *)
Theorem dump_dir_tree_on_dir_creates_walker_path `{C : Codec} (data : image)
    (block : Z) (dirname : string) (level : Z) (w : world) (name type : string) :
  ccos_parse_file_name (ccos_get_file_name block data) = Some (name, type) ->
  ~ str_In "/"%char name ->
  (forall w',
     mkdir (subdir_path data dirname block) w = Some w' ->
     dump_dir_tree_on_dir block data dirname level w = (RESULT_OK, w')
     /\ dirs w' = {[subdir_path data dirname block]} ∪ dirs w
     /\ files w' = files w)
  /\ (mkdir (subdir_path data dirname block) w = None ->
      dump_dir_tree_on_dir block data dirname level w = (RESULT_ERROR, w))
  /\ (subdir_path data dirname block ∈ dirs w
      \/ is_Some (files w !! subdir_path data dirname block) ->
      dump_dir_tree_on_dir block data dirname level w = (RESULT_ERROR, w)).
Proof.
  intros Hname Hslash. unfold dump_dir_tree_on_dir, subdir_path. rewrite Hname.
  rewrite (replace_char_in_place_absent name "/" "_" Hslash).
  split; [|split].
  - intros w' Hmk. rewrite Hmk. by apply mkdir_Some in Hmk as ->.
  - by intros ->.
  - intros H. by rewrite mkdir_exists.
Qed.

Lemma dump_dir_tree_on_dir_creates_walker_path_witness :
  @dump_dir_tree_on_dir (Toy.codec Toy.disk) 3 Toy.disk_image "out" 0 out_host
  = (RESULT_OK, World ∅ ({["out/sub"]} ∪ {["out"]}) 0 [] [])
  /\ @subdir_path (Toy.codec Toy.disk) Toy.disk_image "out" 3 = "out/sub".
Proof.
  destruct (@dump_dir_tree_on_dir_creates_walker_path (Toy.codec Toy.disk)
              Toy.disk_image 3 "out" 0 out_host "sub" EmptyString)
    as (Hmade & _).
  - reflexivity.
  - apply strrchr_None. reflexivity.
  - destruct (Hmade (World ∅ ({["out/sub"]} ∪ {["out"]}) 0 [] [])) as (Hrun & _).
    + vm_compute. reflexivity.
    + split; [exact Hrun | reflexivity].
Defined.

(** X13. For a directory whose name contains ['/'], the directory that
    [dump_dir_tree_on_dir] creates (with the ['/'] replaced, line 296) is
    not the path under which the walker goes on to extract the entries of
    that directory (built from the name as it is, line 80), both paths
    being shorter than [PATH_MAX]: after the visitor has succeeded, the
    walker's path, no directory of the host before, is still none. *)
Theorem dump_dir_tree_on_dir_separator_mismatch `{C : Codec} (data : image)
    (block : Z) (dirname : string) (level : Z) (w w' : world)
    (name type : string) :
  ccos_parse_file_name (ccos_get_file_name block data) = Some (name, type) ->
  str_In "/"%char name ->
  (String.length (dirname +:+ "/" +:+ name) < PATH_MAX)%nat ->
  subdir_path data dirname block ∉ dirs w ->
  dump_dir_tree_on_dir block data dirname level w = (RESULT_OK, w') ->
  subdir_path data dirname block = dirname +:+ "/" +:+ name
  /\ dirs w'
     = {[dirname +:+ "/" +:+ replace_char_in_place name "/" "_"]} ∪ dirs w
  /\ subdir_path data dirname block ∉ dirs w'.
Proof.
  intros Hname Hslash Hfits Hfresh. unfold dump_dir_tree_on_dir, subdir_path in *.
  rewrite Hname in *.
  assert (H1 : snprintf PATH_MAX (dirname +:+ "/" +:+ name)
               = dirname +:+ "/" +:+ name) by (by apply snprintf_fits).
  assert (H2 : snprintf PATH_MAX
                 (dirname +:+ "/" +:+ replace_char_in_place name "/" "_")
               = dirname +:+ "/" +:+ replace_char_in_place name "/" "_").
  { apply snprintf_fits.
    rewrite !str_length_app, replace_char_in_place_length in *. done. }
  rewrite H1 in *. rewrite H2.
  destruct (mkdir _ w) as [w1|] eqn:Hmk; [|discriminate].
  intros [= <-]. apply mkdir_Some in Hmk as ->. simpl.
  split; [done|]. split; [done|].
  intros [Heq|Hin]%elem_of_union; [|done].
  apply elem_of_singleton in Heq.
  apply String.app_inj, String.app_inj in Heq.
  by eapply (replace_char_in_place_present name "/" "_").
Qed.

Lemma dump_dir_tree_on_dir_separator_mismatch_witness :
  @subdir_path (Toy.codec disk_slash_dir) Toy.disk_image "out" 3 = "out/GRiD/OS"
  /\ dirs (snd (@dump_dir_tree_on_dir (Toy.codec disk_slash_dir) 3 Toy.disk_image
                  "out" 0 (Toy.host 0)))
     = {["out/GRiD_OS"]} ∪ ∅
  /\ @subdir_path (Toy.codec disk_slash_dir) Toy.disk_image "out" 3
     ∉ dirs (snd (@dump_dir_tree_on_dir (Toy.codec disk_slash_dir) 3
                    Toy.disk_image "out" 0 (Toy.host 0))).
Proof.
  apply (@dump_dir_tree_on_dir_separator_mismatch (Toy.codec disk_slash_dir)
           Toy.disk_image 3 "out" 0 (Toy.host 0) _ "GRiD/OS" "").
  - reflexivity.
  - simpl. do 4 right. by left.
  - apply Nat.ltb_lt. vm_compute. reflexivity.
  - vm_compute. set_solver.
  - reflexivity.
Defined.

(** ** The directory an image is extracted to *)

(** X16. [dump_dir] never extracts into something that exists. The name of
    the directory it creates has no ['/'], so the directory is made in the
    current directory, whatever directory the image lies in. When something
    is at that name already, [dump_dir] returns -1 with the host as it was,
    before any entry of the image is looked at. For an image whose name
    trims to nothing the directory is named like the image file: extracting
    such an image given by a path without ['/'], that is from the directory
    it lies in, fails in this way on the image file itself. Whenever
    [dump_dir] returns, on any image, the result is 0 or -1. *)
Theorem dump_dir_refuses_existing_target `{C : Codec}
    (trim_string : option string -> ascii -> string)
    (rtrim_string : string -> ascii -> option nat)
    (data : image) (fuel : nat) (path : string) (dir_inode : Z) (w : world) :
  ~ str_In "/"%char (dump_dir_name trim_string rtrim_string path dir_inode data)
  /\ (dump_dir_name trim_string rtrim_string path dir_inode data ∈ dirs w
      \/ is_Some (files w !! dump_dir_name trim_string rtrim_string path
                               dir_inode data) ->
      dump_dir trim_string rtrim_string fuel path dir_inode data w = Some (-1, w))
  /\ (String.length
        (trim_string
           (ccos_short_string_to_string (ccos_get_file_name dir_inode data))
           " "%char) = O ->
      ~ str_In "/"%char path ->
      is_Some (files w !! path) ->
      dump_dir_name trim_string rtrim_string path dir_inode data = path
      /\ dump_dir trim_string rtrim_string fuel path dir_inode data w
         = Some (-1, w))
  /\ (forall r w',
        dump_dir trim_string rtrim_string fuel path dir_inode data w
        = Some (r, w') ->
        r = 0 \/ r = -1).
Proof.
  assert (Hexists :
            dump_dir_name trim_string rtrim_string path dir_inode data ∈ dirs w
            \/ is_Some (files w !! dump_dir_name trim_string rtrim_string path
                                     dir_inode data) ->
            dump_dir trim_string rtrim_string fuel path dir_inode data w
            = Some (-1, w)).
  { intros H. unfold dump_dir. by rewrite mkdir_exists. }
  split; [|split; [done|split]].
  - unfold dump_dir_name. by apply replace_char_in_place_removes.
  - intros Hblank Hslash Hfile.
    assert (Hname : dump_dir_name trim_string rtrim_string path dir_inode data
                    = path).
    { unfold dump_dir_name. rewrite Hblank. cbn [Nat.eqb].
      rewrite path_basename_no_separator by done.
      by apply replace_char_in_place_absent. }
    split; [done|]. apply Hexists. right. by rewrite Hname.
  - intros r w' Hrun. unfold dump_dir in Hrun.
    destruct (mkdir _ w) as [w1|]; [|injection Hrun as <- _; by right].
    by eapply traverse_returns_0_or_minus_1.
Qed.

Lemma dump_dir_refuses_existing_target_witness :
  @dump_dir_name (Toy.codec disk_unnamed_root) (fun name _ => default EmptyString name)
    (fun _ _ => None) "disk.img" 1 Toy.disk_image = "disk.img"
  /\ @dump_dir (Toy.codec disk_unnamed_root) (fun name _ => default EmptyString name)
       (fun _ _ => None) 2 "disk.img" 1 Toy.disk_image replacement_host
     = Some (-1, replacement_host).
Proof.
  destruct (@dump_dir_refuses_existing_target (Toy.codec disk_unnamed_root)
              (fun name _ => default EmptyString name) (fun _ _ => None)
              Toy.disk_image 2 "disk.img" 1 replacement_host)
    as (_ & _ & Hblank & _).
  apply Hblank.
  - reflexivity.
  - apply strrchr_None. reflexivity.
  - eexists. vm_compute. reflexivity.
Defined.

(** ** The listing, again *)

Lemma byte_decimal_length z :
  0 <= z <= 255 -> (String.length (fmt_d z) <= 3)%nat.
Proof.
  intros Hz.
  assert (Hall : forallb (fun z => (String.length (fmt_d z) <=? 3)%nat)
                         (seqZ 0 256) = true) by (vm_compute; reflexivity).
  rewrite forallb_forall in Hall. apply Nat.leb_le, Hall.
  apply list_elem_of_In, elem_of_seqZ. lia.
Qed.

(** X17. The buffer of [VERSION_MAX_SIZE] bytes is large enough: for
    components between 0 and 255, [format_version] yields the whole
    ["major.minor.patch"], never a cut one. *)
Theorem format_version_not_cut (version : version_t) :
  0 <= major version <= 255 -> 0 <= minor version <= 255 ->
  0 <= patch version <= 255 ->
  format_version version
  = fmt_d (major version) +:+ "." +:+ fmt_d (minor version) +:+ "."
    +:+ fmt_d (patch version).
Proof.
  intros H1 H2 H3. unfold format_version. apply snprintf_fits.
  rewrite !str_length_app. simpl.
  pose proof (byte_decimal_length _ H1). pose proof (byte_decimal_length _ H2).
  pose proof (byte_decimal_length _ H3). unfold VERSION_MAX_SIZE. lia.
Qed.

Lemma format_version_not_cut_witness :
  format_version (Version 255 255 255) = "255.255.255".
Proof.
  apply (format_version_not_cut (Version 255 255 255)); simpl; lia.
Defined.

(** X18. An entry whose name does not parse ends the listing: when the
    listing has come, through any chain of nested directories, to an entry
    [e] of [d] on whose name [ccos_parse_file_name] fails, file or
    directory, [print_image_info] returns -1; the rows of the entries before
    [e] are printed, nothing is printed for [e] or for any entry after
    it. *)
Theorem print_image_info_stops_at_unparsable_name `{C : Codec}
    (trim_string : option string -> ascii -> string) (print_frame : nat -> string)
    (data : image) (fuel : nat) (path : string) (superblock : Z) (w : world)
    (fuel' : nat) (d : Z) (dirname' : string) (level' : Z) (w1 w2 : world)
    (before after : list Z) (e : Z) :
  enters data (Some print_file_info) (Some print_file_info) fuel superblock "" 0
    (printf (print_frame 128%nat)
       (printf (table_row "File name" "File type" "File size" "Version"
                          "Creation date" "Mod. date" "Exp. date")
          (print_image_banner trim_string print_frame path superblock data w)))
    (S fuel') d dirname' level' w1 ->
  ccos_get_dir_contents d data = Some (before ++ e :: after) ->
  traverse_prefix data (Some print_file_info) (Some print_file_info)
    (fun b dn lv a =>
       traverse_ccos_image fuel' b data dn lv
         (Some print_file_info) (Some print_file_info) a)
    dirname' level' before w1 = Some w2 ->
  ccos_parse_file_name (ccos_get_file_name e data) = None ->
  print_image_info trim_string print_frame fuel path superblock data w
  = Some (-1, w2).
Proof.
  intros Henters Hc Hpre Hname. unfold print_image_info.
  eapply enters_propagates; [exact Henters|].
  rewrite (traverse_at_entry data _ _ _ _ _ _ _ _ _ _ _ Hc Hpre).
  unfold traverse_entry, call_visitor, print_file_info. rewrite Hname.
  by destruct (ccos_is_dir e data).
Qed.

Lemma print_image_info_stops_at_unparsable_name_witness :
  exists w',
    @print_image_info (Toy.codec disk_unnamed_file)
      (fun name _ => default "" name) spaces 3 "disk.img" 1 Toy.disk_image
      (Toy.host 0) = Some (-1, w')
    /\ length (stdout w') = 9%nat.
Proof.
  eexists. split.
  - eapply (@print_image_info_stops_at_unparsable_name
              (Toy.codec disk_unnamed_file) (fun name _ => default "" name) spaces
              Toy.disk_image 3 "disk.img" 1 (Toy.host 0) 1 3 "/sub" 1 _ _
              [] [8] 4).
    + eapply enters_below with (before := [2]) (sub := 3) (after := [5]);
        try reflexivity.
      apply enters_here.
    + reflexivity.
    + reflexivity.
    + reflexivity.
  - vm_compute. reflexivity.
Defined.

(** ** The patcher, again *)



(** X20. In-place replacement first destroys the image it replaces. With the
    in-place flag set, once the content has been replaced in the buffer the
    original image file is opened for writing, which empties it, and only
    then written: whatever [fwrite] then reports and whatever [replace_file]
    returns, the original path afterwards holds a first part of the new
    image and nothing of the old one. On a host with room for the image
    that part is the whole image and the result is 0. *)
Theorem replace_file_in_place_empties_original `{C : Codec} (fuel : nat)
    (path filename : string) (target_name : option string) (superblock : Z)
    (data : image) (data_size : nat) (in_place : Z) (w w1 : world)
    (inode : Z) (file_contents : list byte) (data' : image) :
  in_place <> 0 ->
  find_filename fuel superblock data
    (replace_file_basename filename target_name) 0 = Some (0, inode) ->
  fopen_rb filename w = Some file_contents ->
  ccos_replace_file inode file_contents data = Some data' ->
  fopen_wb path w = Some w1 ->
  files w1 !! path = Some []
  /\ exists r w' n,
       replace_file fuel path filename target_name superblock data data_size
         in_place w = Some (r, w')
       /\ (n <= data_size)%nat
       /\ files w' !! path = Some (take n data')
       /\ ((data_size <= length data')%nat -> (data_size <= space w)%nat ->
           r = 0 /\ n = data_size).
Proof.
  intros Hflag Hfind Hread Hreplace Hopen.
  assert (Hout : replace_file_output path in_place = path).
  { unfold replace_file_output. apply Z.eqb_neq in Hflag. by rewrite Hflag. }
  rewrite <- Hout in Hopen.
  rewrite (replace_file_after_open _ _ _ _ _ _ data_size _ _ _ _ _ _
             Hfind Hread Hreplace Hopen).
  rewrite Hout in *. clear Hout.
  apply fopen_wb_Some in Hopen as ->. cbn [files].
  split; [apply lookup_insert_eq|].
  unfold fwrite. cbn [fst snd files dirs space stdout block_reads].
  rewrite lookup_insert_eq. cbn [default app]. rewrite length_take.
  set (n := Nat.min (Nat.min data_size (length data')) (space w)).
  do 2 eexists. exists n. split; [done|]. split; [lia|]. split.
  - cbn [files]. rewrite insert_insert_eq, lookup_insert_eq.
    simpl. f_equal. rewrite take_take. f_equal. lia.
  - intros Hlen Hspace. assert (Hn : n = data_size) by lia.
    by rewrite Hn, Nat.eqb_refl.
Qed.

Lemma replace_file_in_place_empties_original_witness :
  exists r w' n,
    @replace_file (Toy.codec Toy.disk) 2 "disk.img" "in/a~Text~" None 1
      Toy.disk_image 60 1 crowded_host = Some (r, w')
    /\ (n <= 60)%nat
    /\ files w' !! "disk.img"
       = Some (take n (take 40 Toy.disk_image ++ [x61; x62; x63; x64; x65]
                       ++ drop 45 Toy.disk_image)).
Proof.
  destruct (@replace_file_in_place_empties_original (Toy.codec Toy.disk) 2
              "disk.img" "in/a~Text~" None 1 Toy.disk_image 60 1 crowded_host
              (World (<["disk.img" := []]> (files crowded_host)) ∅ 10 [] [])
              2 [x61; x62; x63; x64; x65]
              (take 40 Toy.disk_image ++ [x61; x62; x63; x64; x65]
               ++ drop 45 Toy.disk_image))
    as (_ & r & w' & n & Hrun & Hn & Hfile & _).
  - discriminate.
  - vm_compute. reflexivity.
  - vm_compute. reflexivity.
  - vm_compute. reflexivity.
  - reflexivity.
  - exists r, w', n. split; [exact Hrun|]. split; [exact Hn | exact Hfile].
Defined.
